(** * Verification of [src/pdf/extract_structure.py]

    The module infers a title, a list of levelled headings and a list of
    tables from the positioned text a PDF engine (PyMuPDF) reports.  Python
    floats are modelled by Rocq's binary64 primitive floats, Python strings
    by lists of Unicode code points, the engine's nested dictionaries by
    records whose optional keys are [option] fields, and exceptions by an
    explicit result type. *)

From Stdlib Require Import Ascii String.
From Stdlib.Strings Require Import Byte.
From Stdlib Require Import ZArith NArith PArith Bool Lia Floats.
From Stdlib Require Import List.
Import ListNotations.

Set Warnings "-inexact-float".
Local Open Scope bool_scope.

(* ================================================================= *)
(** ** Python values *)

(** A Python [str] is a sequence of Unicode code points. *)
Definition char : Type := N.
Definition str : Type := list char.
Definition bytes : Type := list Byte.byte.

(** ASCII literals of the source, as code points. *)
Definition lit (s : string) : str := map N_of_ascii (list_ascii_of_string s).

(** [dict.get(key, default)] on a key that may be absent. *)
Definition get {A : Type} (entry : option A) (default : A) : A :=
  match entry with
  | Some v => v
  | None => default
  end.

(** Truth value of a sequence: empty sequences are falsy. *)
Definition truthy {A : Type} (l : list A) : bool :=
  match l with
  | [] => false
  | _ :: _ => true
  end.

(** [enumerate(l)] *)
Definition enumerate {A : Type} (l : list A) : list (nat * A) :=
  combine (seq 0 (List.length l)) l.

Fixpoint str_eqb (a b : str) : bool :=
  match a, b with
  | [], [] => true
  | c :: a', d :: b' => N.eqb c d && str_eqb a' b'
  | _, _ => false
  end.

(** [s.startswith(prefix)] *)
Fixpoint startswith (s prefix : str) {struct prefix} : bool :=
  match prefix with
  | [] => true
  | p :: prefix' =>
      match s with
      | [] => false
      | c :: s' => N.eqb c p && startswith s' prefix'
      end
  end.

(** [s.endswith(suffix)] *)
Definition endswith (s suffix : str) : bool :=
  startswith (rev s) (rev suffix).

(** [sub in s] *)
Fixpoint contains (s sub : str) : bool :=
  startswith s sub
  || match s with
     | [] => false
     | _ :: s' => contains s' sub
     end.

(** [t in seen] for a set of strings, kept as the list of its members. *)
Definition set_mem (t : str) (seen : list str) : bool :=
  existsb (str_eqb t) seen.

(** An [int] converted to [float] (exact below 2^53). *)
Definition float_of_nat (n : nat) : float :=
  PrimFloat.of_uint63 (Uint63.of_Z (Z.of_nat n)).

(* ----------------------------------------------------------------- *)
(** *** [round(x, ndigits)] on floats

    CPython rounds the exact decimal expansion of [x] half-to-even at
    [ndigits] places and converts the decimal result back to the nearest
    float; non-finite values and zeros round to themselves. *)

Definition round_half_even (num den : Z) : Z :=
  let q := (num / den)%Z in
  let r := (num mod den)%Z in
  match (2 * r ?= den)%Z with
  | Lt => q
  | Gt => (q + 1)%Z
  | Eq => if Z.even q then q else (q + 1)%Z
  end.

Definition py_round (x : float) (ndigits : Z) : float :=
  match Prim2SF x with
  | S754_finite s m e =>
      let p := (10 ^ ndigits)%Z in
      let num := if (0 <=? e)%Z then (Zpos m * 2 ^ e * p)%Z else (Zpos m * p)%Z in
      let den := if (0 <=? e)%Z then 1%Z else (2 ^ (- e))%Z in
      match round_half_even num den with
      | Zpos k =>
          SF2Prim (SFdiv prec emax (S754_finite s k 0)
                                   (S754_finite false (Z.to_pos p) 0))
      | _ => if s then PrimFloat.neg_zero else PrimFloat.zero
      end
  | _ => x
  end.

(* ----------------------------------------------------------------- *)
(** *** The ASCII part of the Unicode tables

    [str.isalpha], [str.isspace] and [str.lower] consult the Unicode
    database; the development is parametric in them.  Their restriction to
    code points below 128 is written out here for the concrete scenarios. *)

Definition is_ascii (c : char) : bool := (c <? 128)%N.

Definition ascii_isalpha (c : char) : bool :=
  ((65 <=? c)%N && (c <=? 90)%N) || ((97 <=? c)%N && (c <=? 122)%N).

Definition ascii_isspace (c : char) : bool :=
  ((9 <=? c)%N && (c <=? 13)%N) || ((28 <=? c)%N && (c <=? 32)%N).

Definition ascii_lower (s : str) : str :=
  map (fun c => if ((65 <=? c)%N && (c <=? 90)%N) then (c + 32)%N else c) s.

(* ================================================================= *)
(** ** What the PDF engine reports *)

(** A span of [page.get_text("dict")]: every key is read with [.get]. *)
Record Span : Type := {
  span_text : option str;
  span_size : option float;
  span_font : option str;
  span_flags : option Z
}.

Record Line : Type := {
  line_spans : option (list Span);
  line_bbox : option (float * float * float * float)
}.

Record Block : Type := {
  block_type : option Z;
  block_lines : option (list Line)
}.

Record TextDict : Type := {
  td_blocks : option (list Block)
}.

(** A table cell is a string or [None]. *)
Definition cell : Type := option str.

(** A table found by the engine; [extract] is the result of
    [table.extract()]. *)
Record Table : Type := {
  extract : list (list cell)
}.

(** A page.  [find_tables = None] is an engine without the table finder:
    the call raises [AttributeError]. *)
Record Page : Type := {
  get_text : TextDict;
  find_tables : option (list Table)
}.

Definition Document : Type := list Page.

(** The [fitz] module: opening a document by bytes or by path; [None] is an
    exception raised by the engine (undecodable input, missing file). *)
Record Engine : Type := {
  open_stream : bytes -> option Document;
  open_path : str -> option Document
}.

(* ================================================================= *)
(** ** Records of the program *)

Record TextBlock : Type := {
  text : str;
  font_size : float;
  font_name : str;
  is_bold : bool;
  page : Z;
  x : float;
  y : float
}.

(** A heading dictionary: keys "level", "text", "page", "font_size". *)
Record Heading : Type := {
  h_level : Z;
  h_text : str;
  h_page : Z;
  h_font_size : float
}.

(** A table dictionary: keys "page", "rows", "cols", "headers". *)
Record TableRecord : Type := {
  t_page : Z;
  t_rows : nat;
  t_cols : nat;
  t_headers : list cell
}.

(** The dictionary returned by [extract_structure]. *)
Record StructureResult : Type := {
  title : str;
  body_font_size : float;
  headings : list Heading;
  tables : list TableRecord;
  page_count : nat
}.

(** Outcome of a call that may raise. *)
Inductive result (A : Type) : Type :=
| Return (value : A)
| ValueError (message : str)
| EngineError.
Arguments Return {A} value.
Arguments ValueError {A} message.
Arguments EngineError {A}.

(** What the command line leaves behind: the JSON document on standard
    output (exit status 0), the [No input provided] error document (exit
    status 1), or an uncaught exception. *)
Inductive cli_outcome : Type :=
| Printed (stdout : str)
| NoInputProvided
| Uncaught.

(* ================================================================= *)
(** ** Python's [set], run by run *)

(** The built-in [set] of strings with the operations the language gives:
    [set()], [t in s], [s.add(t)] and iteration.  How a set lays out its
    members, and so the order in which it lists them, depends on the
    hashes of the strings, which change from one run of the interpreter to
    the next (hash randomisation).  A run therefore comes with its own
    set; all that is known of it is how it answers. *)
Record PySet : Type := {
  set_state : Type;
  set_new : set_state;
  set_in : str -> set_state -> bool;
  set_add : str -> set_state -> set_state;
  set_iter : set_state -> list str
}.

(** What every set does, whatever its layout. *)
Definition set_lawful (S : PySet) : Prop :=
  (forall t, set_in S t (set_new S) = false)
  /\ (forall t u s, set_in S t (set_add S u s) = str_eqb t u || set_in S t s)
  /\ (forall t s, In t (set_iter S s) <-> set_in S t s = true).

(** A string hash that depends on the run's seed. *)
Definition str_hash (seed : N) (t : str) : N :=
  fold_left (fun h c => (h * 31 + c)%N) t seed.

(** A set that places a new member at the position its hash selects. *)
Definition seeded_add (seed : N) (u : str) (s : list str) : list str :=
  if existsb (str_eqb u) s then s
  else
    let k := N.to_nat (str_hash seed u mod (N.of_nat (length s) + 1))%N in
    firstn k s ++ u :: skipn k s.

Definition seeded_set (seed : N) : PySet :=
  {| set_state := list str;
     set_new := [];
     set_in := fun t s => existsb (str_eqb t) s;
     set_add := seeded_add seed;
     set_iter := fun s => s |}.

(** What differs between two runs: the engine's replies and the set. *)
Record Run : Type := {
  run_engine : Engine;
  run_set : PySet
}.

(* ================================================================= *)
(** ** Example inputs *)

Definition example_span (t font : string) (size : float) (flags : Z) : Span :=
  {| span_text := Some (lit t);
     span_size := Some size;
     span_font := Some (lit font);
     span_flags := Some flags |}.

Definition example_blank_span : Span :=
  example_span "   " "Times-Bold" 30 16.

(** A small bold span, a larger regular span and a still larger span that
    holds only spaces. *)
Definition example_line : Line :=
  {| line_spans := Some [ example_span "Bold" "Helvetica-Bold" 10 16;
                          example_span "Title" "Times-Roman" 20 0;
                          example_blank_span ];
     line_bbox := Some (72, 90, 300, 110)%float |}.

Definition example_line_block : TextBlock :=
  {| text := lit "Bold Title";
     font_size := 20;
     font_name := lit "Times-Roman";
     is_bold := false;
     page := 1;
     x := 72;
     y := 90 |}.

(** A one-page document whose only line is [example_line]. *)
Definition example_line_doc : Document :=
  [ {| get_text :=
         {| td_blocks := Some [ {| block_type := Some 0%Z;
                                   block_lines := Some [example_line] |} ] |};
       find_tables := None |} ].

Definition example_block (t : string) (size : float) (bold : bool) : TextBlock :=
  {| text := lit t; font_size := size; font_name := []; is_bold := bold;
     page := 1; x := 0; y := 0 |}.

(** The four blocks of the scenario with body size 10.0. *)
Definition block_A : TextBlock := example_block "Introduction" 22.0 false.
Definition block_B : TextBlock := example_block "Related Work" 13.0 true.
Definition block_C : TextBlock := example_block "Methods" 11.6 false.
Definition block_D : TextBlock := example_block "Plain body text" 10.0 false.

(** Blocks whose sizes round to 10.0, 12.0, 10.0 and 10.0. *)
Definition example_sized_blocks : list TextBlock :=
  [ example_block "a" 10.04 false; example_block "b" 12 false;
    example_block "c" 9.96 false; example_block "d" 10 false ].

Definition example_text_line (t font : string) (size : float) (flags : Z) : Line :=
  {| line_spans := Some [example_span t font size flags];
     line_bbox := None |}.

(** A one-page document: a title line, two body lines, a bold section
    line, and one table. *)
Definition example_doc : Document :=
  [ {| get_text :=
         {| td_blocks :=
              Some [ {| block_type := Some 0%Z;
                        block_lines :=
                          Some [ example_text_line "Document Title" "Times-Roman" 24 0;
                                 example_text_line "body line" "Times-Roman" 10 0;
                                 example_text_line "more body" "Times-Roman" 10 0;
                                 example_text_line "Section" "Times-Bold" 14 16 ] |} ] |};
       find_tables :=
         Some [ {| extract := [ [Some (lit "A"); Some (lit "B")];
                                [Some (lit "1"); Some (lit "2")] ] |} ] |} ].

(** Blocks whose rounded sizes 12.0 and 10.0 occur twice each, 12.0
    first. *)
Definition example_tied_blocks : list TextBlock :=
  [ example_block "a" 12 false; example_block "b" 10 false;
    example_block "c" 10.04 false; example_block "d" 11.96 false ].

(** A one-page document that holds an image block only. *)
Definition example_image_doc : Document :=
  [ {| get_text :=
         {| td_blocks := Some [ {| block_type := Some 1%Z;
                                   block_lines := None |} ] |};
       find_tables := None |} ].

(** An engine that reports [example_doc] whatever it is asked to open, and
    one that does so only for a non-empty argument. *)
Definition example_fitz : Engine :=
  {| open_stream := fun _ => Some example_doc;
     open_path := fun _ => Some example_doc |}.

Definition example_fitz_strict : Engine :=
  {| open_stream := fun b => if truthy b then Some example_doc else None;
     open_path := fun p => if truthy p then Some example_doc else None |}.

(** A stand-in for [json.dumps] that prints the title only. *)
Definition example_dumps (r : StructureResult) : str := title r.

(* ================================================================= *)
(** ** The program *)

Section ExtractStructure.

(** The Unicode tables behind [str.isalpha], [str.isspace] and
    [str.lower]. *)
Variable isalpha : char -> bool.
Variable isspace : char -> bool.
Variable lower : str -> str.

(** Serialisation of the result, [json.dumps(result, indent=2)]. *)
Variable json_dumps : StructureResult -> str.

(* ----------------------------------------------------------------- *)
(** *** [str.strip()] *)

Fixpoint lstrip (s : str) : str :=
  match s with
  | [] => []
  | c :: s' => if isspace c then lstrip s' else s
  end.

Definition rstrip (s : str) : str := rev (lstrip (rev s)).

Definition strip (s : str) : str := rstrip (lstrip s).

(* ----------------------------------------------------------------- *)
(** *** [extract_text_blocks] *)

(** The four variables the loop over a line's spans updates. *)
Record LineState : Type := {
  line_text : str;
  line_font_size : float;
  line_font_name : str;
  line_is_bold : bool
}.

Definition line_init : LineState :=
  {| line_text := []; line_font_size := 0%float;
     line_font_name := []; line_is_bold := false |}.

(** The boldness test of lines 73-77, on a span's font name and flags. *)
Definition span_is_bold (font : str) (flags : Z) : bool :=
  contains (lower font) (lit "bold")
  || contains (lower font) (lit "black")
  || negb (Z.land flags (2 ^ 4) =? 0)%Z.

(** One iteration of [for span in line.get("spans", [])]. *)
Definition span_step (st : LineState) (span : Span) : LineState :=
  let text := strip (get (span_text span) []) in
  if negb (truthy text) then st
  else
    let line_text' := line_text st ++ text ++ lit " " in
    let font_size := get (span_size span) 0%float in
    if (line_font_size st <? font_size)%float then
      let name := get (span_font span) [] in
      let flags := get (span_flags span) 0%Z in
      {| line_text := line_text';
         line_font_size := font_size;
         line_font_name := name;
         line_is_bold := span_is_bold name flags |}
    else
      {| line_text := line_text';
         line_font_size := line_font_size st;
         line_font_name := line_font_name st;
         line_is_bold := line_is_bold st |}.

Definition scan_line (line : Line) : LineState :=
  fold_left span_step (get (line_spans line) []) line_init.

(** The block appended for a line, if any. *)
Definition line_block (page_num : nat) (line : Line) : option TextBlock :=
  let st := scan_line line in
  let line_text := strip (line_text st) in
  if truthy line_text && (0 <? line_font_size st)%float then
    let bbox := get (line_bbox line) (0, 0, 0, 0)%float in
    let '(x0, y0, _, _) := bbox in
    Some {| text := line_text;
            font_size := line_font_size st;
            font_name := line_font_name st;
            is_bold := line_is_bold st;
            page := Z.of_nat page_num + 1;
            x := x0;
            y := y0 |}
  else None.

Definition lines_blocks (page_num : nat) (lines : list Line) : list TextBlock :=
  flat_map (fun line =>
              match line_block page_num line with
              | Some b => [b]
              | None => []
              end) lines.

Definition page_blocks (page_num : nat) (page : Page) : list TextBlock :=
  flat_map (fun block =>
              match block_type block with
              | Some 0%Z => lines_blocks page_num (get (block_lines block) [])
              | _ => []
              end)
           (get (td_blocks (get_text page)) []).

Definition extract_text_blocks (doc : Document) : list TextBlock :=
  flat_map (fun '(page_num, page) => page_blocks page_num page) (enumerate doc).

(* ----------------------------------------------------------------- *)
(** *** [find_body_font_size] *)

(** [Counter(elems)]: a dictionary in insertion order whose keys are
    compared with float equality; a key already present keeps its place
    (and its first spelling) and has its count incremented. *)
Fixpoint counter_incr (counter : list (float * nat)) (elem : float)
  : list (float * nat) :=
  match counter with
  | [] => [(elem, 1)]
  | (k, n) :: counter' =>
      if (k =? elem)%float then (k, S n) :: counter'
      else (k, n) :: counter_incr counter' elem
  end.

Definition Counter (elems : list float) : list (float * nat) :=
  fold_left counter_incr elems [].

(** [max(items, key=itemgetter(1))]: the running maximum is replaced only
    by a strictly larger count. *)
Fixpoint max_by_count (best : float * nat) (items : list (float * nat))
  : float * nat :=
  match items with
  | [] => best
  | item :: items' =>
      max_by_count (if snd best <? snd item then item else best) items'
  end.

(** [counter.most_common(1)] *)
Definition most_common_1 (counter : list (float * nat)) : list (float * nat) :=
  match counter with
  | [] => []
  | item :: items => [max_by_count item items]
  end.

Definition find_body_font_size (blocks : list TextBlock) : float :=
  if negb (truthy blocks) then 12.0%float
  else
    let sizes := map (fun b => py_round (font_size b) 1) blocks in
    let counter := Counter sizes in
    let most_common := most_common_1 counter in
    match most_common with
    | (v, _) :: _ => v
    | [] => 12.0%float
    end.

(* ----------------------------------------------------------------- *)
(** *** [is_likely_heading] *)

Definition skip_patterns : list str :=
  [lit "provided "; lit "permission "; lit "reproduce "; lit "copyright ";
   lit "http://"; lit "https://"; lit "arxiv:"; lit "doi:"].

(** U+2217 ASTERISK OPERATOR *)
Definition asterisk_operator : char := 8727%N.

Definition is_likely_heading (text : str) : bool :=
  if (length text <? 2) || (150 <? length text) then false
  else if contains (removelast text) (lit ". ") then false
  else
    let alpha_count := length (filter isalpha text) in
    if (float_of_nat alpha_count <? float_of_nat (length text) * 0.5)%float
    then false
    else
      let lower := lower text in
      if existsb (fun pattern => startswith lower pattern) skip_patterns
      then false
      else if endswith text (lit "*") || endswith text [asterisk_operator]
      then false
      else true.

(* ----------------------------------------------------------------- *)
(** *** [infer_headings] *)

Definition default_min_ratio : float := 1.15%float.

(** [ratio = block.font_size / body_size if body_size > 0 else 1.0] *)
Definition block_ratio (block : TextBlock) (body_size : float) : float :=
  if (0 <? body_size)%float then (font_size block / body_size)%float
  else 1.0%float.

(** The [if]/[elif] chain that sets [level], starting from [level = 0]. *)
Definition heading_level (ratio : float) (is_bold : bool) (min_ratio : float)
  : Z :=
  if (2.0 <=? ratio)%float || ((1.5 <=? ratio)%float && is_bold) then 1%Z
  else if (1.5 <=? ratio)%float || ((1.3 <=? ratio)%float && is_bold) then 2%Z
  else if (1.25 <=? ratio)%float || ((1.15 <=? ratio)%float && is_bold) then 3%Z
  else if (min_ratio <=? ratio)%float || is_bold then 4%Z
  else 0%Z.

Definition block_level (block : TextBlock) (body_size min_ratio : float) : Z :=
  heading_level (block_ratio block body_size) (is_bold block) min_ratio.

(** The dictionary appended for an accepted block. *)
Definition make_heading (level : Z) (block : TextBlock) : Heading :=
  {| h_level := level;
     h_text := text block;
     h_page := page block;
     h_font_size := py_round (font_size block) 2 |}.

(** One iteration of [for block in blocks], on the pair
    [(headings, seen_texts)]. *)
Definition infer_step (body_size min_ratio : float)
    (st : list Heading * list str) (block : TextBlock)
  : list Heading * list str :=
  let '(headings, seen_texts) := st in
  if set_mem (text block) seen_texts then st
  else if negb (is_likely_heading (text block)) then st
  else
    let level := block_level block body_size min_ratio in
    if (0 <? level)%Z then
      (headings ++ [make_heading level block], text block :: seen_texts)
    else st.

Definition infer_headings (blocks : list TextBlock) (body_size min_ratio : float)
  : list Heading :=
  fst (fold_left (infer_step body_size min_ratio) blocks ([], [])).

(* ----------------------------------------------------------------- *)
(** *** [detect_tables] *)

(** The body of [for i, table in enumerate(page_tables)]. *)
Definition table_record (page_num : nat) (table : Table) : list TableRecord :=
  let data := extract table in
  if truthy data && (1 <? length data) then
    [{| t_page := Z.of_nat page_num + 1;
        t_rows := length data;
        t_cols := match data with row :: _ => length row | [] => 0 end;
        t_headers := match data with row :: _ => row | [] => [] end |}]
  else [].

Definition page_tables (page_num : nat) (page : Page) : list TableRecord :=
  match find_tables page with
  | Some found => flat_map (table_record page_num) found
  | None => []   (* AttributeError: older engine, no tables on this page *)
  end.

Definition detect_tables (doc : Document) : list TableRecord :=
  flat_map (fun '(page_num, page) => page_tables page_num page) (enumerate doc).

(* ----------------------------------------------------------------- *)
(** *** [extract_structure] *)

Definition value_error_message : str :=
  lit "Must provide pdf_path or pdf_bytes".

(** Lines 207-212: which document is opened. *)
Definition open_document (fitz : Engine)
    (pdf_path : option str) (pdf_bytes : option bytes) : result Document :=
  if truthy (get pdf_bytes []) then
    match open_stream fitz (get pdf_bytes []) with
    | Some doc => Return doc
    | None => EngineError
    end
  else if truthy (get pdf_path []) then
    match open_path fitz (get pdf_path []) with
    | Some doc => Return doc
    | None => EngineError
    end
  else ValueError value_error_message.

(** Lines 228-232: the first heading on page 1 of level at most 2. *)
Fixpoint infer_title (headings : list Heading) : str :=
  match headings with
  | [] => []
  | h :: rest =>
      if (h_page h =? 1)%Z && (h_level h <=? 2)%Z then h_text h
      else infer_title rest
  end.

(** Lines 214-240, on an open document. *)
Definition structure_of (doc : Document) : StructureResult :=
  let blocks := extract_text_blocks doc in
  let body_size := find_body_font_size blocks in
  let headings := infer_headings blocks body_size default_min_ratio in
  let tables := detect_tables doc in
  {| title := infer_title headings;
     body_font_size := py_round body_size 2;
     headings := headings;
     tables := tables;
     page_count := length doc |}.

Definition extract_structure (fitz : Engine)
    (pdf_path : option str) (pdf_bytes : option bytes)
  : result StructureResult :=
  match open_document fitz pdf_path pdf_bytes with
  | Return doc => Return (structure_of doc)
  | ValueError message => ValueError message
  | EngineError => EngineError
  end.

(* ----------------------------------------------------------------- *)
(** *** [main] *)

Definition print_result (r : result StructureResult) : cli_outcome :=
  match r with
  | Return value => Printed (json_dumps value)
  | _ => Uncaught
  end.

(** [argv] is [sys.argv]; [stdin] is what [sys.stdin.buffer.read()]
    returns. *)
Definition main (fitz : Engine) (argv : list str) (stdin : bytes)
  : cli_outcome :=
  let from_stdin :=
    if negb (truthy stdin) then NoInputProvided
    else print_result (extract_structure fitz None (Some stdin)) in
  match argv with
  | _ :: arg :: _ =>
      if negb (str_eqb arg (lit "-")) then
        print_result (extract_structure fitz (Some arg) None)
      else from_stdin
  | _ => from_stdin
  end.

(* ----------------------------------------------------------------- *)
(** *** The program in a run

    The same functions, with [seen_texts] held in the run's own set. *)

Definition infer_step_in (S : PySet) (body_size min_ratio : float)
    (st : list Heading * set_state S) (block : TextBlock)
  : list Heading * set_state S :=
  let '(headings, seen_texts) := st in
  if set_in S (text block) seen_texts then st
  else if negb (is_likely_heading (text block)) then st
  else
    let level := block_level block body_size min_ratio in
    if (0 <? level)%Z then
      (headings ++ [make_heading level block],
       set_add S (text block) seen_texts)
    else st.

Definition infer_headings_in (S : PySet) (blocks : list TextBlock)
    (body_size min_ratio : float) : list Heading :=
  fst (fold_left (infer_step_in S body_size min_ratio) blocks ([], set_new S)).

Definition structure_of_in (S : PySet) (doc : Document) : StructureResult :=
  let blocks := extract_text_blocks doc in
  let body_size := find_body_font_size blocks in
  let headings := infer_headings_in S blocks body_size default_min_ratio in
  let tables := detect_tables doc in
  {| title := infer_title headings;
     body_font_size := py_round body_size 2;
     headings := headings;
     tables := tables;
     page_count := length doc |}.

Definition extract_structure_in (run : Run)
    (pdf_path : option str) (pdf_bytes : option bytes)
  : result StructureResult :=
  match open_document (run_engine run) pdf_path pdf_bytes with
  | Return doc => Return (structure_of_in (run_set run) doc)
  | ValueError message => ValueError message
  | EngineError => EngineError
  end.

Definition main_in (run : Run) (argv : list str) (stdin : bytes)
  : cli_outcome :=
  let from_stdin :=
    if negb (truthy stdin) then NoInputProvided
    else print_result (extract_structure_in run None (Some stdin)) in
  match argv with
  | _ :: arg :: _ =>
      if negb (str_eqb arg (lit "-")) then
        print_result (extract_structure_in run (Some arg) None)
      else from_stdin
  | _ => from_stdin
  end.

(** The input the command line hands to [extract_structure]: the file
    argument, or else the bytes of standard input. *)
Definition cli_source (argv : list str) (stdin : bytes)
  : option str * option bytes :=
  match argv with
  | _ :: arg :: _ =>
      if negb (str_eqb arg (lit "-")) then (Some arg, None)
      else (None, Some stdin)
  | _ => (None, Some stdin)
  end.

(* ================================================================= *)
(** ** Definitions the statements are written with *)

(** The priority cascade of the heading classifier, as a table of rules:
    a level and its condition on the ratio and the boldness. *)
Definition cascade_rules (min_ratio : float)
  : list (Z * (float -> bool -> bool)) :=
  [ (1%Z, fun ratio bold => (2.0 <=? ratio)%float || ((1.5 <=? ratio)%float && bold));
    (2%Z, fun ratio bold => (1.5 <=? ratio)%float || ((1.3 <=? ratio)%float && bold));
    (3%Z, fun ratio bold => (1.25 <=? ratio)%float || ((1.15 <=? ratio)%float && bold));
    (4%Z, fun ratio bold => (min_ratio <=? ratio)%float || bold) ].

(** The level of the first rule that matches; [None] is "not a heading". *)
Definition first_matching_rule (rules : list (Z * (float -> bool -> bool)))
    (ratio : float) (bold : bool) : option Z :=
  option_map fst (find (fun rule => snd rule ratio bold) rules).

(** A block that passes the filter and is given a level. *)
Definition accepted (body_size min_ratio : float) (block : TextBlock) : bool :=
  is_likely_heading (text block)
  && (0 <? block_level block body_size min_ratio)%Z.

Definition heading_of (body_size min_ratio : float) (block : TextBlock)
  : Heading :=
  make_heading (block_level block body_size min_ratio) block.

(** The blocks the loop of [infer_headings] keeps, given the texts seen so
    far: the loop read as a recursive function. *)
Fixpoint kept_blocks (body_size min_ratio : float) (seen_texts : list str)
    (blocks : list TextBlock) : list TextBlock :=
  match blocks with
  | [] => []
  | block :: rest =>
      if set_mem (text block) seen_texts then
        kept_blocks body_size min_ratio seen_texts rest
      else if accepted body_size min_ratio block then
        block :: kept_blocks body_size min_ratio (text block :: seen_texts) rest
      else kept_blocks body_size min_ratio seen_texts rest
  end.

(** The classifier in the order the specification gives: filter, then
    level assignment, then deduplication against the accepted headings. *)
Definition spec_infer_step (body_size min_ratio : float)
    (headings : list Heading) (block : TextBlock) : list Heading :=
  if negb (is_likely_heading (text block)) then headings
  else
    match first_matching_rule (cascade_rules min_ratio)
            (block_ratio block body_size) (is_bold block) with
    | None => headings
    | Some level =>
        if existsb (fun h => str_eqb (h_text h) (text block)) headings
        then headings
        else headings ++ [make_heading level block]
    end.

Definition spec_infer_headings (blocks : list TextBlock)
    (body_size min_ratio : float) : list Heading :=
  fold_left (spec_infer_step body_size min_ratio) blocks [].

(** Order-preserving sub-list. *)
Inductive sublist {A : Type} : list A -> list A -> Prop :=
| sublist_nil : sublist [] []
| sublist_skip : forall a l1 l2, sublist l1 l2 -> sublist l1 (a :: l2)
| sublist_keep : forall a l1 l2, sublist l1 l2 -> sublist (a :: l1) (a :: l2).

(** How often a value occurs among the rounded sizes, by float equality. *)
Definition occurrences (u : float) (sizes : list float) : nat :=
  length (filter (fun s => (s =? u)%float) sizes).

Definition rounded_sizes (blocks : list TextBlock) : list float :=
  map (fun b => py_round (font_size b) 1) blocks.

(** The count a counter holds for a value. *)
Definition count_of (counter : list (float * nat)) (u : float) : nat :=
  match find (fun item => (fst item =? u)%float) counter with
  | Some item => snd item
  | None => 0
  end.

(** The prefixes that disqualify a text, as the specification lists them. *)
Definition spec_skip_prefixes : list str :=
  [lit "provided "; lit "permission "; lit "reproduce "; lit "copyright ";
   lit "http://"; lit "https://"; lit "arxiv:"; lit "doi:"].

(** The filter of the heading classifier, as the specification words it. *)
Definition likely_heading_spec (text : str) : Prop :=
  (2 <= length text <= 150)
  /\ (~ exists before after, removelast text = before ++ lit ". " ++ after)
  /\ (length text <= 2 * length (filter isalpha text))
  /\ (forall prefix, In prefix spec_skip_prefixes ->
        ~ exists rest, lower text = prefix ++ rest)
  /\ (~ exists before, text = before ++ lit "*")
  /\ (~ exists before, text = before ++ [asterisk_operator]).

(** The Unicode tables agree with their ASCII part below 128. *)
Definition tables_extend_ascii : Prop :=
  (forall c, is_ascii c = true ->
             isalpha c = ascii_isalpha c /\ isspace c = ascii_isspace c)
  /\ (forall s, forallb is_ascii s = true -> lower s = ascii_lower s).

(** A span the loop of [extract_text_blocks] looks at: its trimmed text is
    not empty. *)
Definition span_counts (span : Span) : bool :=
  truthy (strip (get (span_text span) [])).

(** [line] is a line of a text block (type 0) of page [page_num]. *)
Definition doc_line (doc : Document) (page_num : nat) (line : Line) : Prop :=
  exists page block,
    nth_error doc page_num = Some page
    /\ In block (get (td_blocks (get_text page)) [])
    /\ block_type block = Some 0%Z
    /\ In line (get (block_lines block) []).

(** The record [detect_tables] builds for extracted rows on a page. *)
Definition record_of (page_num : nat) (data : list (list cell)) : TableRecord :=
  {| t_page := Z.of_nat page_num + 1;
     t_rows := length data;
     t_cols := length (hd [] data);
     t_headers := hd [] data |}.

(** The test of the title loop. *)
Definition title_candidate (h : Heading) : bool :=
  (h_page h =? 1)%Z && (h_level h <=? 2)%Z.

(* ================================================================= *)
(** ** Definitions the proofs are written with *)

(** A zero of either sign. *)
Definition SFzero (a : spec_float) : Prop :=
  match a with
  | S754_zero _ => True
  | _ => False
  end.

(** No two keys of a counter are equal. *)
Fixpoint distinct_keys (counter : list (float * nat)) : Prop :=
  match counter with
  | [] => True
  | item :: counter' =>
      (forall item', In item' counter' -> (fst item =? fst item')%float = false)
      /\ distinct_keys counter'
  end.

(** The float test [alpha_count < len(text) * 0.5] on every pair of counts
    the filter can reach, against the same test on integers. *)
Definition half_test_table : bool :=
  forallb (fun n =>
             forallb (fun a =>
                        Bool.eqb
                          (float_of_nat a <? float_of_nat n * 0.5)%float
                          (2 * a <? n))
                     (seq 0 (S n)))
          (seq 0 151).

Definition size_of (span : Span) : float := get (span_size span) 0%float.

(** What the loop has established after the spans [done]: either no span
    has been selected yet, or the state holds the size, font and boldness
    of a selected span that no counted span exceeds. *)
Definition span_loop_inv (st : LineState) (done : list Span) : Prop :=
  (line_font_size st = 0%float
   /\ forall s, In s done -> span_counts s = true ->
                (0 <? size_of s)%float = false)
  \/ exists before span after,
       done = before ++ span :: after
       /\ span_counts span = true
       /\ (0 <? size_of span)%float = true
       /\ line_font_size st = size_of span
       /\ line_font_name st = get (span_font span) []
       /\ line_is_bold st
          = span_is_bold (get (span_font span) []) (get (span_flags span) 0%Z)
       /\ (forall s, In s before -> span_counts s = true ->
                     (size_of span <=? size_of s)%float = false)
       /\ (forall s, In s after -> span_counts s = true ->
                     (size_of span <? size_of s)%float = false).

(* ================================================================= *)
(** ** Definitions for the further properties *)

(** A string that neither starts nor ends with a whitespace character. *)
Definition trimmed (s : str) : Prop :=
  (forall c rest, s = c :: rest -> isspace c = false)
  /\ (forall rest c, s = rest ++ [c] -> isspace c = false).

(** [" ".join(parts)] *)
Fixpoint join_space (parts : list str) : str :=
  match parts with
  | [] => []
  | [part] => part
  | part :: parts' => part ++ lit " " ++ join_space parts'
  end.

(** The trimmed texts of a line's spans that are not blank. *)
Definition counted_texts (spans : list Span) : list str :=
  filter truthy (map (fun span => strip (get (span_text span) [])) spans).

(** The keys of a counter after one more element: a new key goes last. *)
Definition add_key (keys : list float) (elem : float) : list float :=
  if existsb (fun k => (k =? elem)%float) keys then keys else keys ++ [elem].

(** Pages in ascending order. *)
Fixpoint ascending (pages : list Z) : Prop :=
  match pages with
  | [] => True
  | p :: pages' => (forall q, In q pages' -> (p <= q)%Z) /\ ascending pages'
  end.

(* ================================================================= *)
(** ** Rounding and strings *)

(** [round] on halfway and near-halfway cases, as CPython prints them. *)
Example py_round_samples :
  py_round 0.125 2 = 0.12%float /\ py_round 0.375 2 = 0.38%float
  /\ py_round 2.675 2 = 2.67%float /\ py_round 11.65 1 = 11.7%float
  /\ py_round 9.95 1 = 9.9%float /\ py_round 10.04 1 = 10.0%float
  /\ py_round infinity 1 = infinity /\ py_round (-0.01) 1 = neg_zero.
Proof. repeat split; vm_compute; reflexivity. Qed.

Lemma str_eqb_eq (a b : str) : str_eqb a b = true <-> a = b.
Proof.
  revert b; induction a as [|c a IH]; intros [|d b]; simpl;
    try (split; [discriminate | discriminate]); try tauto.
  rewrite andb_true_iff, N.eqb_eq, IH.
  split; [intros [-> ->]; reflexivity | intros H; inversion H; auto].
Qed.

Lemma str_eqb_refl (a : str) : str_eqb a a = true.
Proof. apply str_eqb_eq; reflexivity. Qed.

Lemma str_eqb_sym (a b : str) : str_eqb a b = str_eqb b a.
Proof.
  destruct (str_eqb a b) eqn:E.
  - apply str_eqb_eq in E; subst; symmetry; apply str_eqb_refl.
  - destruct (str_eqb b a) eqn:E'; [|reflexivity].
    apply str_eqb_eq in E'; subst; rewrite str_eqb_refl in E; discriminate.
Qed.

Lemma set_mem_In (t : str) (seen : list str) :
  set_mem t seen = true <-> In t seen.
Proof.
  unfold set_mem; rewrite existsb_exists; split.
  - intros [u [Hu E]]; apply str_eqb_eq in E; subst; exact Hu.
  - intros H; exists t; split; [exact H | apply str_eqb_refl].
Qed.

Lemma startswith_prefix (s prefix : str) :
  startswith s prefix = true <-> exists rest, s = prefix ++ rest.
Proof.
  revert s; induction prefix as [|p prefix IH]; intros s; simpl.
  - split; [intros _; exists s; reflexivity | reflexivity].
  - destruct s as [|c s].
    + split; [discriminate | intros [rest H]; discriminate].
    + rewrite andb_true_iff, N.eqb_eq, IH; split.
      * intros [-> [rest ->]]; exists rest; reflexivity.
      * intros [rest H]; inversion H; split; [reflexivity | exists rest; reflexivity].
Qed.

Lemma endswith_suffix (s suffix : str) :
  endswith s suffix = true <-> exists before, s = before ++ suffix.
Proof.
  unfold endswith; rewrite startswith_prefix; split.
  - intros [rest H]; exists (rev rest).
    rewrite <- (rev_involutive s), H, rev_app_distr, rev_involutive; reflexivity.
  - intros [before ->]; exists (rev before); apply rev_app_distr.
Qed.

Lemma contains_infix (s sub : str) :
  contains s sub = true <-> exists before after, s = before ++ sub ++ after.
Proof.
  induction s as [|c s IH].
  - simpl; rewrite orb_false_r, startswith_prefix; split.
    + intros [rest H]; exists [], rest; exact H.
    + intros [before [after H]]; destruct before as [|b before]; [|discriminate].
      exists after; exact H.
  - cbn [contains]; rewrite orb_true_iff, startswith_prefix, IH; split.
    + intros [[rest H] | [before [after H]]].
      * exists [], rest; exact H.
      * exists (c :: before), after; rewrite H; reflexivity.
    + intros [[|b before] [after H]].
      * left; exists after; exact H.
      * right; inversion H; exists before, after; reflexivity.
Qed.

Lemma truthy_false_nil {A : Type} (l : list A) : truthy l = false <-> l = [].
Proof. destruct l; simpl; split; congruence. Qed.

Lemma truthy_length {A : Type} (l : list A) : truthy l = true <-> 1 <= length l.
Proof. destruct l; simpl; split; try congruence; lia. Qed.

Lemma In_enumerate {A : Type} (l : list A) (n : nat) (a : A) :
  In (n, a) (enumerate l) <-> nth_error l n = Some a.
Proof.
  unfold enumerate.
  assert (G : forall k, In (n, a) (combine (seq k (length l)) l)
                        <-> k <= n /\ nth_error l (n - k) = Some a).
  { induction l as [|b l IH]; intros k; simpl.
    - split; [tauto | intros [_ H]; destruct (n - k); discriminate].
    - rewrite IH; split.
      + intros [H | [Hk H]].
        * inversion H; subst; split; [lia|]. rewrite Nat.sub_diag; reflexivity.
        * split; [lia|]. replace (n - k) with (S (n - S k)) by lia. exact H.
      + intros [Hk H]. destruct (Nat.eq_dec k n) as [->|Hne].
        * rewrite Nat.sub_diag in H; simpl in H; inversion H; left; reflexivity.
        * right; split; [lia|]. replace (n - k) with (S (n - S k)) in H by lia.
          exact H. }
  rewrite G, Nat.sub_0_r; split; [tauto | intros H; split; [lia | exact H]].
Qed.

(* ================================================================= *)
(** ** Float equality, the key comparison of the counter *)

Lemma SFeqb_true (a b : spec_float) :
  SFeqb a b = true <-> (SFzero a /\ SFzero b) \/ (a = b /\ a <> S754_nan).
Proof.
  unfold SFeqb; split.
  - destruct a as [sa|sa| |sa ma ea], b as [sb|sb| |sb mb eb]; simpl;
      try discriminate; try (left; split; exact I);
      try (destruct sa; discriminate); try (destruct sb; discriminate).
    + destruct sa, sb; try discriminate; intros _; right; split; congruence.
    + destruct sa, sb; try discriminate;
        destruct (Z.compare_spec ea eb) as [->| |]; try discriminate;
        destruct (Pos.compare_cont Eq ma mb) eqn:E; try discriminate;
        apply Pos.compare_eq in E; subst; intros _; right; split; congruence.
  - intros [[Ha Hb] | [<- Hn]].
    + destruct a, b; try contradiction; reflexivity.
    + destruct a as [sa|sa| |sa ma ea]; simpl; try reflexivity.
      * destruct sa; reflexivity.
      * congruence.
      * destruct sa; rewrite Z.compare_refl;
          change (Pos.compare_cont Eq ma ma) with (Pos.compare ma ma);
          rewrite Pos.compare_refl; reflexivity.
Qed.

Lemma feqb_sym (a b : float) : (a =? b)%float = (b =? a)%float.
Proof.
  rewrite !FloatAxioms.eqb_spec.
  destruct (SFeqb (Prim2SF a) (Prim2SF b)) eqn:E1,
           (SFeqb (Prim2SF b) (Prim2SF a)) eqn:E2; try reflexivity.
  - apply SFeqb_true in E1.
    assert (SFeqb (Prim2SF b) (Prim2SF a) = true); [|congruence].
    apply SFeqb_true. destruct E1 as [[? ?]|[E ?]]; [left; tauto|].
    right; split; congruence.
  - apply SFeqb_true in E2.
    assert (SFeqb (Prim2SF a) (Prim2SF b) = true); [|congruence].
    apply SFeqb_true. destruct E2 as [[? ?]|[E ?]]; [left; tauto|].
    right; split; congruence.
Qed.

Lemma feqb_trans (a b c : float) :
  (a =? b)%float = true -> (b =? c)%float = true -> (a =? c)%float = true.
Proof.
  rewrite !FloatAxioms.eqb_spec, !SFeqb_true.
  intros [[Ha Hb] | [E1 N1]] [[Hb' Hc] | [E2 N2]].
  - left; tauto.
  - left; split; [exact Ha | rewrite <- E2; exact Hb].
  - left; split; [rewrite E1; exact Hb' | exact Hc].
  - right; split; congruence.
Qed.

(** Two equal keys find the same entries. *)
Lemma feqb_congr (a b k : float) :
  (a =? b)%float = true -> (k =? a)%float = (k =? b)%float.
Proof.
  intros E.
  destruct (k =? a)%float eqn:E1, (k =? b)%float eqn:E2; try reflexivity.
  - rewrite (feqb_trans k a b E1 E) in E2; discriminate.
  - rewrite feqb_sym in E.
    rewrite (feqb_trans k b a E2 E) in E1; discriminate.
Qed.

(* ================================================================= *)
(** ** The counter of [find_body_font_size] *)

Lemma count_of_incr (counter : list (float * nat)) (elem u : float) :
  count_of (counter_incr counter elem) u
  = count_of counter u + (if (elem =? u)%float then 1 else 0).
Proof.
  unfold count_of.
  induction counter as [|[k n] counter IH]; simpl.
  - destruct (elem =? u)%float; reflexivity.
  - destruct (k =? elem)%float eqn:Ekx; simpl.
    + destruct (k =? u)%float eqn:Eku, (elem =? u)%float eqn:Exu; simpl; try lia.
      * rewrite feqb_sym in Ekx.
        rewrite (feqb_trans elem k u Ekx Eku) in Exu; discriminate.
      * rewrite (feqb_trans k elem u Ekx Exu) in Eku; discriminate.
    + destruct (k =? u)%float eqn:Eku; [|exact IH].
      destruct (elem =? u)%float eqn:Exu; [|lia].
      rewrite feqb_sym in Exu.
      rewrite (feqb_trans k u elem Eku Exu) in Ekx; discriminate.
Qed.

Lemma count_of_fold (elems : list float) (counter : list (float * nat)) (u : float) :
  count_of (fold_left counter_incr elems counter) u
  = count_of counter u + occurrences u elems.
Proof.
  revert counter; induction elems as [|e elems IH]; intros counter; simpl.
  - unfold occurrences; simpl; lia.
  - rewrite IH, count_of_incr; unfold occurrences; simpl.
    destruct (e =? u)%float; simpl; lia.
Qed.

Lemma count_of_Counter (elems : list float) (u : float) :
  count_of (Counter elems) u = occurrences u elems.
Proof. unfold Counter; rewrite count_of_fold; reflexivity. Qed.

Lemma counter_incr_keys (counter : list (float * nat)) (elem : float) item :
  In item (counter_incr counter elem) ->
  fst item = elem \/ exists item', In item' counter /\ fst item' = fst item.
Proof.
  induction counter as [|[k n] counter IH]; simpl.
  - intros [<- | []]; left; reflexivity.
  - destruct (k =? elem)%float; simpl.
    + intros [<- | H]; right.
      * exists (k, n); split; [left; reflexivity | reflexivity].
      * exists item; split; [right; exact H | reflexivity].
    + intros [<- | H].
      * right; exists (k, n); split; [left; reflexivity | reflexivity].
      * destruct (IH H) as [E | [item' [Hin E]]]; [left; exact E|].
        right; exists item'; split; [right; exact Hin | exact E].
Qed.

Lemma counter_incr_distinct (counter : list (float * nat)) (elem : float) :
  distinct_keys counter -> distinct_keys (counter_incr counter elem).
Proof.
  induction counter as [|[k n] counter IH]; simpl.
  - intros _; split; [intros ? [] | exact I].
  - intros [Hk Hd]; destruct (k =? elem)%float eqn:E; simpl.
    + split; assumption.
    + split; [|apply IH; exact Hd].
      intros item' Hin.
      destruct (counter_incr_keys _ _ _ Hin) as [-> | [item'' [Hin' <-]]].
      * exact E.
      * apply Hk; exact Hin'.
Qed.

Lemma Counter_fold_inv (elems : list float) (counter : list (float * nat)) :
  distinct_keys counter ->
  distinct_keys (fold_left counter_incr elems counter)
  /\ (forall item, In item (fold_left counter_incr elems counter) ->
        In (fst item) elems \/ exists item', In item' counter /\ fst item' = fst item)
  /\ (fold_left counter_incr elems counter = [] -> elems = [] /\ counter = []).
Proof.
  revert counter; induction elems as [|e elems IH]; intros counter Hd; simpl.
  - split; [exact Hd|]. split; [|tauto].
    intros item Hin; right; exists item; tauto.
  - destruct (IH _ (counter_incr_distinct counter e Hd)) as [H1 [H2 H3]].
    split; [exact H1|]. split.
    + intros item Hin. destruct (H2 item Hin) as [H | [item' [Hin' E]]].
      * left; right; exact H.
      * destruct (counter_incr_keys _ _ _ Hin') as [E' | [item'' [Hin'' E'']]].
        -- left; left; congruence.
        -- right; exists item''; split; [exact Hin'' | congruence].
    + intros E; destruct (H3 E) as [_ E'].
      destruct counter as [|[k n] counter]; simpl in E'; [discriminate|].
      destruct (k =? e)%float; discriminate.
Qed.

Lemma entry_count (counter : list (float * nat)) item :
  distinct_keys counter -> In item counter ->
  (fst item =? fst item)%float = true ->
  count_of counter (fst item) = snd item.
Proof.
  unfold count_of.
  induction counter as [|item0 counter IH]; simpl; [tauto|].
  intros [Hk Hd] [-> | Hin] Hrefl.
  - rewrite Hrefl; reflexivity.
  - rewrite (Hk item Hin). apply IH; assumption.
Qed.

Lemma count_of_bound (counter : list (float * nat)) (u : float) (bound : nat) :
  (forall item, In item counter -> snd item <= bound) ->
  count_of counter u <= bound.
Proof.
  unfold count_of; intros H.
  destruct (find _ counter) as [item|] eqn:E; [|lia].
  apply find_some in E; apply H; tauto.
Qed.

Lemma max_by_count_max (items : list (float * nat)) (best : float * nat) :
  In (max_by_count best items) (best :: items)
  /\ forall item, In item (best :: items) ->
                  snd item <= snd (max_by_count best items).
Proof.
  revert best; induction items as [|item0 items IH]; intros best; simpl.
  - split; [left; reflexivity | intros item [<- | []]; lia].
  - destruct (IH (if snd best <? snd item0 then item0 else best)) as [Hin Hmax].
    split.
    + destruct Hin as [E | Hin]; [|right; right; exact Hin].
      rewrite <- E; destruct (snd best <? snd item0); [right; left|left]; reflexivity.
    + assert (Hb : snd (if snd best <? snd item0 then item0 else best)
                   <= snd (max_by_count
                             (if snd best <? snd item0 then item0 else best) items))
        by (apply Hmax; left; reflexivity).
      intros item [<- | [<- | Hin']].
      * destruct (Nat.ltb_spec (snd best) (snd item0)); lia.
      * destruct (Nat.ltb_spec (snd best) (snd item0)); lia.
      * apply Hmax; right; exact Hin'.
Qed.

(** C2.  [find_body_font_size] returns 12.0 on the empty list.  On a
    non-empty list it returns the rounded-to-0.1 font size of some block,
    and, when every rounded size is a number (equal to itself, so not NaN),
    no value occurs more often among the rounded sizes than the returned
    one. *)
Theorem find_body_font_size_mode :
  find_body_font_size [] = 12.0%float
  /\ forall blocks : list TextBlock,
       blocks <> [] ->
       (exists b, In b blocks
                  /\ find_body_font_size blocks = py_round (font_size b) 1)
       /\ ((forall b, In b blocks ->
              (py_round (font_size b) 1 =? py_round (font_size b) 1)%float = true) ->
           forall u,
             occurrences u (rounded_sizes blocks)
             <= occurrences (find_body_font_size blocks) (rounded_sizes blocks)).
Proof.
  split; [reflexivity|].
  intros blocks Hne.
  unfold find_body_font_size.
  destruct blocks as [|b0 blocks0] eqn:Eb; [congruence|].
  rewrite <- Eb in *; clear Hne.
  assert (Ht : truthy blocks = true) by (rewrite Eb; reflexivity).
  rewrite Ht; simpl negb; cbv iota.
  fold (rounded_sizes blocks).
  set (sizes := rounded_sizes blocks).
  destruct (Counter_fold_inv sizes [] I) as [Hd [Hkeys Hnil]].
  fold (Counter sizes) in Hd, Hkeys, Hnil.
  destruct (Counter sizes) as [|item items] eqn:Ec.
  { destruct (Hnil eq_refl) as [E _]. unfold sizes, rounded_sizes in E.
    rewrite Eb in E; discriminate. }
  unfold most_common_1.
  destruct (max_by_count_max items item) as [Hin Hmax].
  destruct (max_by_count item items) as [v n] eqn:Em.
  assert (Hv : In v sizes).
  { destruct (Hkeys _ Hin) as [H | [item' [[] _]]]; exact H. }
  assert (Hb : exists b, In b blocks /\ v = py_round (font_size b) 1).
  { unfold sizes, rounded_sizes in Hv. apply in_map_iff in Hv.
    destruct Hv as [b [E Hb]]; exists b; split; [exact Hb | symmetry; exact E]. }
  split; [exact Hb|].
  intros Hnum u.
  assert (Hrefl : (v =? v)%float = true).
  { destruct Hb as [b [Hb ->]]; apply Hnum; exact Hb. }
  rewrite <- !count_of_Counter, Ec.
  pose proof (entry_count _ (v, n) Hd Hin Hrefl) as Hcount.
  simpl fst in Hcount; simpl snd in Hcount; rewrite Hcount.
  apply (count_of_bound _ u n); exact Hmax.
Qed.

(** For a number (not NaN), [not (a > 0)] is [a <= 0]. *)
Lemma fpos_or_le (a : float) :
  (a =? a)%float = true -> (0 <? a)%float = negb (a <=? 0)%float.
Proof.
  rewrite FloatAxioms.eqb_spec, ltb_spec, leb_spec.
  change (Prim2SF 0) with (S754_zero false).
  destruct (Prim2SF a) as [[]|[]| |[] m e]; simpl;
    try reflexivity; try discriminate.
Qed.

(* ================================================================= *)
(** ** The heading classifier *)

Lemma heading_level_range (ratio : float) (bold : bool) (min_ratio : float) :
  let level := heading_level ratio bold min_ratio in
  level = 0%Z \/ level = 1%Z \/ level = 2%Z \/ level = 3%Z \/ level = 4%Z.
Proof.
  unfold heading_level.
  repeat match goal with
         | |- context [if ?c then _ else _] => destruct c
         end; tauto.
Qed.

(** The [if]/[elif] chain is the first matching rule of the table. *)
Lemma heading_level_cascade (ratio : float) (bold : bool) (min_ratio : float) :
  first_matching_rule (cascade_rules min_ratio) ratio bold
  = if (0 <? heading_level ratio bold min_ratio)%Z
    then Some (heading_level ratio bold min_ratio)
    else None.
Proof.
  unfold first_matching_rule, cascade_rules, heading_level; simpl.
  repeat match goal with
         | |- context [if ?c then _ else _] => destruct c; simpl
         end; reflexivity.
Qed.

(** The loop of [infer_headings] appends the headings of the kept blocks
    and records their texts. *)
Lemma infer_fold (body_size min_ratio : float) (blocks : list TextBlock) :
  forall (hs : list Heading) (seen : list str),
    fold_left (infer_step body_size min_ratio) blocks (hs, seen)
    = (hs ++ map (heading_of body_size min_ratio)
                 (kept_blocks body_size min_ratio seen blocks),
       rev (map text (kept_blocks body_size min_ratio seen blocks)) ++ seen).
Proof.
  induction blocks as [|b blocks IH]; intros hs seen; simpl.
  - rewrite app_nil_r; reflexivity.
  - unfold accepted.
    destruct (set_mem (text b) seen) eqn:Eseen; [apply IH|].
    destruct (is_likely_heading (text b)) eqn:Elikely; simpl; [|apply IH].
    destruct (0 <? block_level b body_size min_ratio)%Z eqn:Elevel; [|apply IH].
    rewrite IH; simpl. rewrite <- !app_assoc; reflexivity.
Qed.

Lemma infer_headings_kept (blocks : list TextBlock) (body_size min_ratio : float) :
  infer_headings blocks body_size min_ratio
  = map (heading_of body_size min_ratio)
        (kept_blocks body_size min_ratio [] blocks).
Proof. unfold infer_headings; rewrite infer_fold; reflexivity. Qed.

Lemma kept_blocks_sound (body_size min_ratio : float) (blocks : list TextBlock) :
  forall (seen : list str) (b : TextBlock),
    In b (kept_blocks body_size min_ratio seen blocks) ->
    In b blocks /\ accepted body_size min_ratio b = true /\ ~ In (text b) seen.
Proof.
  induction blocks as [|b0 blocks IH]; intros seen b; simpl; [tauto|].
  destruct (set_mem (text b0) seen) eqn:Eseen.
  - intros H; destruct (IH _ _ H) as [? [? ?]]; tauto.
  - destruct (accepted body_size min_ratio b0) eqn:Eacc.
    + intros [<- | H].
      * split; [left; reflexivity|]. split; [exact Eacc|].
        rewrite <- set_mem_In, Eseen; discriminate.
      * destruct (IH _ _ H) as [? [? Hn]].
        split; [right; assumption|]. split; [assumption|].
        intros Hin; apply Hn; right; exact Hin.
    + intros H; destruct (IH _ _ H) as [? [? ?]]; tauto.
Qed.

Lemma kept_blocks_NoDup (body_size min_ratio : float) (blocks : list TextBlock) :
  forall seen : list str,
    NoDup (map text (kept_blocks body_size min_ratio seen blocks)).
Proof.
  induction blocks as [|b0 blocks IH]; intros seen; simpl; [constructor|].
  destruct (set_mem (text b0) seen); [apply IH|].
  destruct (accepted body_size min_ratio b0); [|apply IH].
  simpl; constructor; [|apply IH].
  intros Hin; apply in_map_iff in Hin; destruct Hin as [b [E Hb]].
  destruct (kept_blocks_sound _ _ _ _ _ Hb) as [_ [_ Hn]].
  apply Hn; left; symmetry; exact E.
Qed.

Lemma kept_blocks_sublist (body_size min_ratio : float) (blocks : list TextBlock) :
  forall seen : list str,
    sublist (kept_blocks body_size min_ratio seen blocks) blocks.
Proof.
  induction blocks as [|b0 blocks IH]; intros seen; simpl; [constructor|].
  destruct (set_mem (text b0) seen); [constructor; apply IH|].
  destruct (accepted body_size min_ratio b0); constructor; apply IH.
Qed.

(** A kept block is the first accepted block that carries its text. *)
Lemma kept_blocks_first (body_size min_ratio : float) (blocks : list TextBlock) :
  forall (seen : list str) (b : TextBlock),
    In b (kept_blocks body_size min_ratio seen blocks) ->
    exists before after,
      blocks = before ++ b :: after
      /\ forall b', In b' before -> accepted body_size min_ratio b' = true ->
                    text b' <> text b.
Proof.
  induction blocks as [|b0 blocks IH]; intros seen b; simpl; [tauto|].
  destruct (set_mem (text b0) seen) eqn:Eseen.
  - intros H. destruct (IH _ _ H) as [before [after [-> Hfirst]]].
    exists (b0 :: before), after; split; [reflexivity|].
    intros b' [<- | Hin] Hacc; [|apply Hfirst; assumption].
    destruct (kept_blocks_sound _ _ _ _ _ H) as [_ [_ Hn]].
    intros E; apply Hn; rewrite <- E; apply set_mem_In; exact Eseen.
  - destruct (accepted body_size min_ratio b0) eqn:Eacc.
    + intros [<- | H].
      * exists [], blocks; split; [reflexivity | intros ? []].
      * destruct (IH _ _ H) as [before [after [-> Hfirst]]].
        exists (b0 :: before), after; split; [reflexivity|].
        intros b' [<- | Hin] Hacc; [|apply Hfirst; assumption].
        destruct (kept_blocks_sound _ _ _ _ _ H) as [_ [_ Hn]].
        intros E; apply Hn; left; exact E.
    + intros H. destruct (IH _ _ H) as [before [after [-> Hfirst]]].
      exists (b0 :: before), after; split; [reflexivity|].
      intros b' [<- | Hin] Hacc; [congruence | apply Hfirst; assumption].
Qed.

Lemma heading_of_text (body_size min_ratio : float) (kept : list TextBlock) :
  map h_text (map (heading_of body_size min_ratio) kept) = map text kept.
Proof. rewrite map_map; reflexivity. Qed.

(** C1.  The ratio is the font size over the body size, or 1.0 when the
    body size (a number) is at most 0.  Every heading returned by
    [infer_headings] comes from a block that passed the filter, and its level is 1, 2, 3 or 4 and is the level of the
    first rule of the cascade that matches the block's ratio and boldness;
    a text all of whose blocks match no rule is absent from the output.
    With body size 10.0 and the default minimum ratio: a non-bold 22.0pt
    block has level 1, a bold 13.0pt block level 2, a non-bold 11.6pt block
    level 4, a non-bold 10.0pt block matches no rule; and the four blocks
    in a row, with distinct texts that pass the filter, give exactly the
    three headings. *)
Theorem infer_headings_levels :
  (forall (b : TextBlock) (body_size : float),
      (body_size =? body_size)%float = true ->
      block_ratio b body_size
      = if (body_size <=? 0)%float then 1.0%float
        else (font_size b / body_size)%float)
  /\ (forall (blocks : list TextBlock) (body_size min_ratio : float) (h : Heading),
      In h (infer_headings blocks body_size min_ratio) ->
      exists b,
        In b blocks
        /\ is_likely_heading (text b) = true
        /\ h = make_heading (h_level h) b
        /\ (h_level h = 1 \/ h_level h = 2 \/ h_level h = 3 \/ h_level h = 4)%Z
        /\ first_matching_rule (cascade_rules min_ratio)
             (block_ratio b body_size) (is_bold b) = Some (h_level h))
  /\ (forall (blocks : list TextBlock) (body_size min_ratio : float) (t : str),
         (forall b, In b blocks -> text b = t ->
                    first_matching_rule (cascade_rules min_ratio)
                      (block_ratio b body_size) (is_bold b) = None) ->
         ~ In t (map h_text (infer_headings blocks body_size min_ratio)))
  /\ (forall A B C D : TextBlock,
         font_size A = 22.0%float -> is_bold A = false ->
         font_size B = 13.0%float -> is_bold B = true ->
         font_size C = 11.6%float -> is_bold C = false ->
         font_size D = 10.0%float -> is_bold D = false ->
         block_level A 10.0 default_min_ratio = 1%Z
         /\ block_level B 10.0 default_min_ratio = 2%Z
         /\ block_level C 10.0 default_min_ratio = 4%Z
         /\ first_matching_rule (cascade_rules default_min_ratio)
              (block_ratio D 10.0) (is_bold D) = None
         /\ (is_likely_heading (text A) = true ->
             is_likely_heading (text B) = true ->
             is_likely_heading (text C) = true ->
             NoDup [text A; text B; text C] ->
             infer_headings [A; B; C; D] 10.0 default_min_ratio
             = [make_heading 1 A; make_heading 2 B; make_heading 4 C])).
Proof.
  split; [|split; [|split]].
  - intros b body_size Hnum. unfold block_ratio.
    rewrite (fpos_or_le body_size Hnum).
    destruct (body_size <=? 0)%float; reflexivity.
  - intros blocks body_size min_ratio h Hin.
    rewrite infer_headings_kept in Hin; apply in_map_iff in Hin.
    destruct Hin as [b [<- Hb]].
    destruct (kept_blocks_sound _ _ _ _ _ Hb) as [Hblocks [Hacc _]].
    unfold accepted in Hacc; apply andb_true_iff in Hacc.
    destruct Hacc as [Hlikely Hlevel].
    exists b; split; [exact Hblocks|]. split; [exact Hlikely|].
    split; [reflexivity|].
    unfold heading_of, make_heading; cbn [h_level].
    rewrite heading_level_cascade.
    unfold block_level in *; rewrite Hlevel.
    split; [|reflexivity].
    apply Z.ltb_lt in Hlevel.
    pose proof (heading_level_range (block_ratio b body_size) (is_bold b) min_ratio)
      as Hrange; cbv zeta in Hrange.
    destruct Hrange as [E | Hrange]; [lia | exact Hrange].
  - intros blocks body_size min_ratio t Hnone Hin.
    rewrite infer_headings_kept, heading_of_text in Hin.
    apply in_map_iff in Hin; destruct Hin as [b [E Hb]].
    destruct (kept_blocks_sound _ _ _ _ _ Hb) as [Hblocks [Hacc _]].
    specialize (Hnone b Hblocks E).
    rewrite heading_level_cascade in Hnone.
    unfold accepted in Hacc; apply andb_true_iff in Hacc.
    destruct Hacc as [_ Hlevel]; unfold block_level in Hlevel.
    rewrite Hlevel in Hnone; discriminate.
  - intros A B C D HA HA' HB HB' HC HC' HD HD'.
    assert (LA : block_level A 10.0 default_min_ratio = 1%Z)
      by (unfold block_level, block_ratio; rewrite HA, HA'; reflexivity).
    assert (LB : block_level B 10.0 default_min_ratio = 2%Z)
      by (unfold block_level, block_ratio; rewrite HB, HB'; reflexivity).
    assert (LC : block_level C 10.0 default_min_ratio = 4%Z)
      by (unfold block_level, block_ratio; rewrite HC, HC'; reflexivity).
    assert (LD : block_level D 10.0 default_min_ratio = 0%Z)
      by (unfold block_level, block_ratio; rewrite HD, HD'; reflexivity).
    repeat split; try assumption.
    + rewrite heading_level_cascade. unfold block_level in LD; rewrite LD.
      reflexivity.
    + intros FA FB FC Hnd.
      inversion Hnd as [|? ? HnA Hnd1]; subst.
      inversion Hnd1 as [|? ? HnB Hnd2]; subst.
      assert (EBA : str_eqb (text B) (text A) = false).
      { destruct (str_eqb (text B) (text A)) eqn:E; [|reflexivity].
        apply str_eqb_eq in E; exfalso; apply HnA; simpl; auto. }
      assert (ECA : str_eqb (text C) (text A) = false).
      { destruct (str_eqb (text C) (text A)) eqn:E; [|reflexivity].
        apply str_eqb_eq in E; exfalso; apply HnA; simpl; auto. }
      assert (ECB : str_eqb (text C) (text B) = false).
      { destruct (str_eqb (text C) (text B)) eqn:E; [|reflexivity].
        apply str_eqb_eq in E; exfalso; apply HnB; simpl; auto. }
      assert (AA : accepted 10.0 default_min_ratio A = true)
        by (unfold accepted; rewrite FA, LA; reflexivity).
      assert (AB : accepted 10.0 default_min_ratio B = true)
        by (unfold accepted; rewrite FB, LB; reflexivity).
      assert (AC : accepted 10.0 default_min_ratio C = true)
        by (unfold accepted; rewrite FC, LC; reflexivity).
      assert (AD : accepted 10.0 default_min_ratio D = false)
        by (unfold accepted; rewrite LD; apply andb_false_r).
      rewrite infer_headings_kept.
      cbn [kept_blocks set_mem existsb].
      rewrite AA; cbn [set_mem existsb]; rewrite EBA; cbn [orb].
      rewrite AB; cbn [set_mem existsb]; rewrite ECB, ECA; cbn [orb].
      rewrite AC, AD; cbn [set_mem existsb].
      destruct (str_eqb (text D) (text C) || (str_eqb (text D) (text B)
                || (str_eqb (text D) (text A) || false)));
        cbn [map]; unfold heading_of; rewrite LA, LB, LC; reflexivity.
Qed.

(** C4.  The texts of the headings returned by [infer_headings] are
    pairwise distinct; the headings are those of an order-preserving
    sub-list of the blocks; and each heading comes from the first accepted
    block that carries its text. *)
Theorem infer_headings_unique (blocks : list TextBlock)
    (body_size min_ratio : float) :
  NoDup (map h_text (infer_headings blocks body_size min_ratio))
  /\ (exists kept,
         sublist kept blocks
         /\ infer_headings blocks body_size min_ratio
            = map (heading_of body_size min_ratio) kept)
  /\ (forall h, In h (infer_headings blocks body_size min_ratio) ->
        exists before b after,
          blocks = before ++ b :: after
          /\ h = heading_of body_size min_ratio b
          /\ accepted body_size min_ratio b = true
          /\ forall b', In b' before ->
                        accepted body_size min_ratio b' = true ->
                        text b' <> text b).
Proof.
  rewrite infer_headings_kept; split; [|split].
  - rewrite heading_of_text; apply kept_blocks_NoDup.
  - exists (kept_blocks body_size min_ratio [] blocks).
    split; [apply kept_blocks_sublist | reflexivity].
  - intros h Hin; apply in_map_iff in Hin; destruct Hin as [b [<- Hb]].
    destruct (kept_blocks_first _ _ _ _ _ Hb) as [before [after [E Hfirst]]].
    destruct (kept_blocks_sound _ _ _ _ _ Hb) as [_ [Hacc _]].
    exists before, b, after; repeat split; assumption.
Qed.

Lemma infer_spec_fold (body_size min_ratio : float) (blocks : list TextBlock) :
  forall (hs : list Heading) (seen : list str),
    (forall t, set_mem t seen = existsb (fun h => str_eqb (h_text h) t) hs) ->
    fst (fold_left (infer_step body_size min_ratio) blocks (hs, seen))
    = fold_left (spec_infer_step body_size min_ratio) blocks hs.
Proof.
  induction blocks as [|b blocks IH]; intros hs seen Hinv; [reflexivity|].
  cbn [fold_left]. unfold infer_step at 2, spec_infer_step at 2.
  rewrite heading_level_cascade; fold (block_level b body_size min_ratio).
  rewrite <- Hinv.
  destruct (set_mem (text b) seen) eqn:Eseen.
  - destruct (is_likely_heading (text b)); simpl;
      destruct (0 <? block_level b body_size min_ratio)%Z;
      apply IH; exact Hinv.
  - destruct (is_likely_heading (text b)); simpl; [|apply IH; exact Hinv].
    destruct (0 <? block_level b body_size min_ratio)%Z; [|apply IH; exact Hinv].
    apply IH; intros t.
    rewrite existsb_app; simpl; rewrite orb_false_r, Hinv, orb_comm.
    rewrite (str_eqb_sym t (text b)); reflexivity.
Qed.

(** C9.  [infer_headings], which tests the seen-set before the filter and
    the level, returns the same list as the classifier run in the order of
    the specification: filter, level, then deduplication. *)
Theorem infer_headings_order (blocks : list TextBlock)
    (body_size min_ratio : float) :
  infer_headings blocks body_size min_ratio
  = spec_infer_headings blocks body_size min_ratio.
Proof.
  unfold infer_headings, spec_infer_headings.
  apply infer_spec_fold; reflexivity.
Qed.

(* ================================================================= *)
(** ** The heading filter *)

Lemma half_test_table_ok : half_test_table = true.
Proof. vm_compute; reflexivity. Qed.

Lemma half_test (a n : nat) :
  a <= n -> n <= 150 ->
  (float_of_nat a <? float_of_nat n * 0.5)%float = (2 * a <? n).
Proof.
  intros Ha Hn.
  pose proof half_test_table_ok as H; unfold half_test_table in H.
  rewrite forallb_forall in H.
  specialize (H n); rewrite forallb_forall in H.
  apply eqb_prop, H; apply in_seq; lia.
Qed.

(** The early returns of [is_likely_heading], as one conjunction. *)
Lemma is_likely_heading_tests (text : str) :
  is_likely_heading text
  = negb ((length text <? 2) || (150 <? length text))
    && negb (contains (removelast text) (lit ". "))
    && negb (float_of_nat (length (filter isalpha text))
             <? float_of_nat (length text) * 0.5)%float
    && negb (existsb (fun pattern => startswith (lower text) pattern)
                     skip_patterns)
    && negb (endswith text (lit "*") || endswith text [asterisk_operator]).
Proof.
  unfold is_likely_heading.
  repeat match goal with
         | |- context [if ?c then _ else _] => destruct c; simpl
         end; reflexivity.
Qed.

(** C5.  [is_likely_heading] accepts a text exactly when its length is
    between 2 and 150, the text without its last character contains no
    period followed by a space, at least half of its characters are
    alphabetic, its lowercase form starts with none of the eight listed
    prefixes, and it ends neither with an asterisk nor with the asterisk
    operator.  The sentence with a period and a space inside is rejected;
    with Unicode tables that extend the ASCII ones, "1234-5678" is rejected
    and "Introduction" is accepted. *)
Theorem is_likely_heading_filter :
  (forall text : str, is_likely_heading text = true <-> likely_heading_spec text)
  /\ is_likely_heading (lit "This is a sentence. More text.") = false
  /\ (tables_extend_ascii ->
      is_likely_heading (lit "1234-5678") = false
      /\ is_likely_heading (lit "Introduction") = true).
Proof.
  split; [|split].
  - intros text; rewrite is_likely_heading_tests; unfold likely_heading_spec.
    rewrite !andb_true_iff, !negb_true_iff, !orb_false_iff.
    rewrite Nat.ltb_ge, Nat.ltb_ge.
    assert (Hcontains : contains (removelast text) (lit ". ") = false
                        <-> ~ exists before after,
                              removelast text = before ++ lit ". " ++ after).
    { rewrite <- contains_infix; destruct (contains _ _); split; congruence. }
    assert (Hprefix : existsb (fun pattern => startswith (lower text) pattern)
                        skip_patterns = false
                      <-> forall prefix, In prefix spec_skip_prefixes ->
                            ~ exists rest, lower text = prefix ++ rest).
    { change spec_skip_prefixes with skip_patterns.
      split.
      - intros E prefix Hin Hex. apply startswith_prefix in Hex.
        assert (existsb (fun pattern => startswith (lower text) pattern)
                  skip_patterns = true); [|congruence].
        apply existsb_exists; exists prefix; tauto.
      - intros H.
        destruct (existsb _ skip_patterns) eqn:E; [|reflexivity].
        apply existsb_exists in E; destruct E as [prefix [Hin Hs]].
        exfalso; apply (H prefix Hin); apply startswith_prefix; exact Hs. }
    assert (Hends : forall suffix, endswith text suffix = false
                                   <-> ~ exists before, text = before ++ suffix).
    { intros suffix; rewrite <- endswith_suffix.
      destruct (endswith text suffix); split; congruence. }
    rewrite Hcontains, Hprefix, !Hends.
    split.
    + intros [[[[[H2 H150] Hc] Hhalf] Hp] [He1 He2]].
      rewrite half_test in Hhalf by (try apply filter_length_le; lia).
      apply Nat.ltb_ge in Hhalf. tauto.
    + intros [[H2 H150] [Hc [Hhalf [Hp [He1 He2]]]]].
      repeat split; try assumption.
      rewrite half_test by (try apply filter_length_le; lia).
      apply Nat.ltb_ge; exact Hhalf.
  - vm_compute; reflexivity.
  - intros [Hchar Hlower]; split.
    + rewrite is_likely_heading_tests.
      replace (filter isalpha (lit "1234-5678"))
        with (filter ascii_isalpha (lit "1234-5678")).
      * vm_compute (length _). vm_compute (contains _ _).
        vm_compute (_ <? _)%float. rewrite !andb_false_r; reflexivity.
      * apply filter_ext_in; intros c Hc; symmetry; apply Hchar.
        revert c Hc; apply forallb_forall; vm_compute; reflexivity.
    + rewrite is_likely_heading_tests.
      replace (filter isalpha (lit "Introduction"))
        with (filter ascii_isalpha (lit "Introduction")).
      * rewrite Hlower by (vm_compute; reflexivity).
        vm_compute; reflexivity.
      * apply filter_ext_in; intros c Hc; symmetry; apply Hchar.
        revert c Hc; apply forallb_forall; vm_compute; reflexivity.
Qed.

(* ================================================================= *)
(** ** Float order, the comparison of the span loop *)

Lemma SFlt_le_trans (a b c : spec_float) :
  SFltb a b = true -> SFleb b c = true -> SFltb a c = true.
Proof.
  unfold SFltb, SFleb.
  destruct a as [[]|[]| |[] ma ea], b as [[]|[]| |[] mb eb],
           c as [[]|[]| |[] mc ec]; simpl;
    try discriminate; try reflexivity;
    change (Pos.compare_cont Eq) with Pos.compare;
    repeat match goal with
           | |- context [Z.compare ?u ?v] => destruct (Z.compare_spec u v)
           | |- context [Pos.compare ?u ?v] => destruct (Pos.compare_spec u v)
           end; simpl; try discriminate; try reflexivity; intros; exfalso; lia.
Qed.

Lemma flt_le_trans (a b c : float) :
  (a <? b)%float = true -> (b <=? c)%float = true -> (a <? c)%float = true.
Proof. rewrite !ltb_spec, leb_spec; apply SFlt_le_trans. Qed.

Lemma flt_le (a b : float) : (a <? b)%float = true -> (a <=? b)%float = true.
Proof.
  rewrite ltb_spec, leb_spec; unfold SFltb, SFleb.
  destruct (SFcompare _ _) as [[]|]; congruence.
Qed.

Lemma flt_irrefl (a : float) : (a <? a)%float = false.
Proof.
  rewrite ltb_spec; unfold SFltb.
  destruct (Prim2SF a) as [[]|[]| |[] m e]; simpl; try reflexivity;
    rewrite Z.compare_refl; change (Pos.compare_cont Eq m m) with (Pos.compare m m);
    rewrite Pos.compare_refl; reflexivity.
Qed.

Lemma flt_trans (a b c : float) :
  (a <? b)%float = true -> (b <? c)%float = true -> (a <? c)%float = true.
Proof. intros H1 H2; apply (flt_le_trans a b c H1), flt_le, H2. Qed.

(** Below a strictly larger value: not above it. *)
Lemma fle_false_of_lt (a b c : float) :
  (a <? b)%float = true -> (a <? c)%float = false -> (b <=? c)%float = false.
Proof.
  intros H1 H2; destruct (b <=? c)%float eqn:E; [|reflexivity].
  rewrite (flt_le_trans a b c H1 E) in H2; discriminate.
Qed.

(* ================================================================= *)
(** ** The span loop of [extract_text_blocks] *)

Lemma span_step_inv (st : LineState) (done : list Span) (span : Span) :
  span_loop_inv st done -> span_loop_inv (span_step st span) (done ++ [span]).
Proof.
  intros Hinv. unfold span_step.
  destruct (truthy (strip (get (span_text span) []))) eqn:Ecount; simpl negb; cbv iota.
  - fold (size_of span).
    destruct (line_font_size st <? size_of span)%float eqn:Elt.
    + (* the span becomes the selected one *)
      right; exists done, span, []; cbn [line_font_size line_font_name line_is_bold].
      destruct Hinv as [[E0 Hsmall] | [before [sp [after
        [Ed [Hc [Hpos [Esz [_ [_ [Hbefore Hafter]]]]]]]]]]].
      * rewrite E0 in Elt.
        repeat split; try reflexivity; try assumption; [|intros ? []].
        intros s Hs Hcs. apply (fle_false_of_lt 0%float); auto.
      * rewrite Esz in Elt.
        repeat split; try reflexivity; try assumption;
          [apply (flt_trans _ _ _ Hpos Elt) | | intros ? []].
        intros s Hs Hcs. rewrite Ed in Hs. apply in_app_or in Hs.
        destruct Hs as [Hs | [<- | Hs]].
        -- apply (fle_false_of_lt (size_of sp)); [exact Elt|].
           destruct (size_of sp <? size_of s)%float eqn:E; [|reflexivity].
           pose proof (Hbefore s Hs Hcs) as Hb.
           rewrite (flt_le _ _ E) in Hb; discriminate.
        -- apply (fle_false_of_lt (size_of sp)); [exact Elt | apply flt_irrefl].
        -- apply (fle_false_of_lt (size_of sp)); [exact Elt | apply Hafter; assumption].
    + (* the span is counted but does not exceed the current size *)
      destruct Hinv as [[E0 Hsmall] | [before [sp [after
        [Ed [Hc [Hpos [Esz [Enm [Ebd [Hbefore Hafter]]]]]]]]]]].
      * left; cbn [line_font_size]; split; [exact E0|].
        intros s Hs Hcs; apply in_app_or in Hs; destruct Hs as [Hs | [<- | []]].
        -- apply Hsmall; assumption.
        -- rewrite <- E0; exact Elt.
      * right; exists before, sp, (after ++ [span]).
        cbn [line_font_size line_font_name line_is_bold].
        rewrite Ed, <- app_assoc; repeat split; try assumption.
        intros s Hs Hcs; apply in_app_or in Hs; destruct Hs as [Hs | [<- | []]].
        -- apply Hafter; assumption.
        -- rewrite <- Esz; exact Elt.
  - (* the span is blank: skipped *)
    assert (Hblank : span_counts span = false) by exact Ecount.
    destruct Hinv as [[E0 Hsmall] | [before [sp [after
      [Ed [Hc [Hpos [Esz [Enm [Ebd [Hbefore Hafter]]]]]]]]]]].
    + left; split; [exact E0|].
      intros s Hs Hcs; apply in_app_or in Hs; destruct Hs as [Hs | [<- | []]].
      * apply Hsmall; assumption.
      * congruence.
    + right; exists before, sp, (after ++ [span]).
      rewrite Ed, <- app_assoc; repeat split; try assumption.
      intros s Hs Hcs; apply in_app_or in Hs; destruct Hs as [Hs | [<- | []]].
      * apply Hafter; assumption.
      * congruence.
Qed.

Lemma span_loop_fold (spans : list Span) :
  forall (st : LineState) (done : list Span),
    span_loop_inv st done ->
    span_loop_inv (fold_left span_step spans st) (done ++ spans).
Proof.
  induction spans as [|span spans IH]; intros st done Hinv; simpl.
  - rewrite app_nil_r; exact Hinv.
  - replace (done ++ span :: spans) with ((done ++ [span]) ++ spans)
      by (rewrite <- app_assoc; reflexivity).
    apply IH, span_step_inv, Hinv.
Qed.

Lemma scan_line_inv (line : Line) :
  span_loop_inv (scan_line line) (get (line_spans line) []).
Proof.
  unfold scan_line.
  apply (span_loop_fold (get (line_spans line) []) line_init []).
  left; split; [reflexivity | intros ? []].
Qed.

(** The block of a line takes its size, font and boldness from one counted
    span, the first that no counted span exceeds. *)
Lemma line_block_selected (page_num : nat) (line : Line) (b : TextBlock) :
  line_block page_num line = Some b ->
  exists before span after,
    get (line_spans line) [] = before ++ span :: after
    /\ span_counts span = true
    /\ font_size b = get (span_size span) 0%float
    /\ font_name b = get (span_font span) []
    /\ is_bold b
       = (contains (lower (font_name b)) (lit "bold")
          || contains (lower (font_name b)) (lit "black")
          || negb (Z.land (get (span_flags span) 0%Z) 16 =? 0)%Z)
    /\ (forall s, In s before -> span_counts s = true ->
                  (font_size b <=? get (span_size s) 0%float)%float = false)
    /\ (forall s, In s after -> span_counts s = true ->
                  (font_size b <? get (span_size s) 0%float)%float = false).
Proof.
  unfold line_block; intros Hb.
  destruct (truthy (strip (line_text (scan_line line)))
            && (0 <? line_font_size (scan_line line))%float) eqn:Eemit;
    [|discriminate].
  apply andb_true_iff in Eemit; destruct Eemit as [_ Hpos].
  destruct (get (line_bbox line) (0, 0, 0, 0)%float) as [[[x0 y0] x1] y1].
  inversion Hb; subst b; clear Hb; cbn [font_size font_name is_bold].
  destruct (scan_line_inv line) as [[E0 _] | [before [span [after
    [Ed [Hc [_ [Esz [Enm [Ebd [Hbefore Hafter]]]]]]]]]]].
  - rewrite E0 in Hpos; rewrite flt_irrefl in Hpos; discriminate.
  - exists before, span, after.
    rewrite Esz, Enm, Ebd; unfold span_is_bold, size_of in *.
    repeat split; assumption.
Qed.

(** Every block of [extract_text_blocks] is the block of a line of a text
    block of the document. *)
Lemma extract_text_blocks_lines (doc : Document) (b : TextBlock) :
  In b (extract_text_blocks doc)
  <-> exists page_num line, doc_line doc page_num line
                            /\ line_block page_num line = Some b.
Proof.
  unfold extract_text_blocks, doc_line; rewrite in_flat_map; split.
  - intros [[page_num page] [Hin Hb]]. apply In_enumerate in Hin.
    unfold page_blocks in Hb; apply in_flat_map in Hb.
    destruct Hb as [block [Hblock Hb]].
    destruct (block_type block) as [[| |]|] eqn:Et; try contradiction.
    unfold lines_blocks in Hb; apply in_flat_map in Hb.
    destruct Hb as [line [Hline Hb]].
    destruct (line_block page_num line) as [b'|] eqn:El; [|contradiction].
    destruct Hb as [<- | []].
    exists page_num, line; split; [|exact El].
    exists page, block; repeat split; assumption.
  - intros [page_num [line [[page [block [Hn [Hblock [Et Hline]]]]] El]]].
    exists (page_num, page); split; [apply In_enumerate; exact Hn|].
    unfold page_blocks; apply in_flat_map; exists block; split; [exact Hblock|].
    rewrite Et. unfold lines_blocks; apply in_flat_map.
    exists line; split; [exact Hline|]. rewrite El; left; reflexivity.
Qed.

(** C7 (amended).  Every block of [extract_text_blocks] is emitted for a
    line of the document, and one span of that line whose trimmed text is
    not empty holds the block's font size, font name and boldness; the
    boldness is that span's alone: its lowercased font name contains "bold"
    or "black", or its flags have the bit of value 16 set.  No counted span
    before it is as large, and no counted span after it is larger.  Spans
    that are blank after trimming are not looked at. *)
Theorem extract_text_blocks_largest_span (doc : Document) (b : TextBlock) :
  In b (extract_text_blocks doc) ->
  exists page_num line before span after,
    doc_line doc page_num line
    /\ line_block page_num line = Some b
    /\ get (line_spans line) [] = before ++ span :: after
    /\ span_counts span = true
    /\ font_size b = get (span_size span) 0%float
    /\ font_name b = get (span_font span) []
    /\ is_bold b
       = (contains (lower (font_name b)) (lit "bold")
          || contains (lower (font_name b)) (lit "black")
          || negb (Z.land (get (span_flags span) 0%Z) 16 =? 0)%Z)
    /\ (forall s, In s before -> span_counts s = true ->
                  (font_size b <=? get (span_size s) 0%float)%float = false)
    /\ (forall s, In s after -> span_counts s = true ->
                  (font_size b <? get (span_size s) 0%float)%float = false).
Proof.
  intros Hin. apply extract_text_blocks_lines in Hin.
  destruct Hin as [page_num [line [Hline Hb]]].
  destruct (line_block_selected page_num line b Hb)
    as [before [span [after H]]].
  exists page_num, line, before, span, after; tauto.
Qed.

(* ================================================================= *)
(** ** Tables *)

Lemma table_record_rows (page_num : nat) (table : Table) :
  table_record page_num table
  = if 2 <=? length (extract table)
    then [record_of page_num (extract table)]
    else [].
Proof.
  unfold table_record, record_of.
  destruct (extract table) as [|row [|row' rows]]; reflexivity.
Qed.

(** C6.  A table the engine reports is recorded exactly when its extracted
    data has at least two rows; the record holds the number of rows, the
    length of the first row and the first row; every record has at least
    two rows.  The table [[A, B], [1, 2]] is recorded with 2 rows, 2
    columns and headers [A, B]; the table [[A, B]] is not. *)
Theorem detect_tables_rows :
  (forall (doc : Document) (r : TableRecord),
      In r (detect_tables doc)
      <-> exists page_num page found table,
            nth_error doc page_num = Some page
            /\ find_tables page = Some found
            /\ In table found
            /\ 2 <= length (extract table)
            /\ r = {| t_page := Z.of_nat page_num + 1;
                      t_rows := length (extract table);
                      t_cols := length (hd [] (extract table));
                      t_headers := hd [] (extract table) |})
  /\ (forall (doc : Document) (r : TableRecord),
         In r (detect_tables doc) -> 2 <= t_rows r)
  /\ (forall (text_dict : TextDict) (A B one two : cell),
         detect_tables
           [{| get_text := text_dict;
               find_tables := Some [ {| extract := [[A; B]; [one; two]] |};
                                     {| extract := [[A; B]] |} ] |}]
         = [{| t_page := 1; t_rows := 2; t_cols := 2; t_headers := [A; B] |}]).
Proof.
  assert (Hiff : forall (doc : Document) (r : TableRecord),
      In r (detect_tables doc)
      <-> exists page_num page found table,
            nth_error doc page_num = Some page
            /\ find_tables page = Some found
            /\ In table found
            /\ 2 <= length (extract table)
            /\ r = record_of page_num (extract table)).
  { intros doc r; unfold detect_tables; rewrite in_flat_map; split.
    - intros [[page_num page] [Hin Hr]].
      apply In_enumerate in Hin. unfold page_tables in Hr.
      destruct (find_tables page) as [found|] eqn:Ef; [|contradiction].
      apply in_flat_map in Hr; destruct Hr as [table [Ht Hr]].
      rewrite table_record_rows in Hr.
      destruct (Nat.leb_spec 2 (length (extract table))); [|contradiction].
      destruct Hr as [<- | []].
      exists page_num, page, found, table; repeat split; assumption.
    - intros [page_num [page [found [table [Hn [Ef [Ht [Hlen ->]]]]]]]].
      exists (page_num, page); split; [apply In_enumerate; exact Hn|].
      unfold page_tables; rewrite Ef; apply in_flat_map.
      exists table; split; [exact Ht|].
      rewrite table_record_rows.
      destruct (Nat.leb_spec 2 (length (extract table))); [left; reflexivity | lia]. }
  split; [exact Hiff|]. split.
  - intros doc r Hin; apply Hiff in Hin.
    destruct Hin as [page_num [page [found [table [_ [_ [_ [Hlen ->]]]]]]]].
    exact Hlen.
  - intros; reflexivity.
Qed.

(* ================================================================= *)
(** ** Title and assembly *)

Lemma infer_title_first (hs : list Heading) :
  (exists before h after,
      hs = before ++ h :: after
      /\ (h_page h = 1 /\ h_level h <= 2)%Z
      /\ (forall h', In h' before -> ~ (h_page h' = 1 /\ h_level h' <= 2)%Z)
      /\ infer_title hs = h_text h)
  \/ ((forall h, In h hs -> ~ (h_page h = 1 /\ h_level h <= 2)%Z)
      /\ infer_title hs = []).
Proof.
  induction hs as [|h hs IH]; simpl.
  - right; split; [intros ? [] | reflexivity].
  - destruct ((h_page h =? 1)%Z && (h_level h <=? 2)%Z) eqn:E.
    + apply andb_true_iff in E; destruct E as [E1 E2].
      apply Z.eqb_eq in E1; apply Z.leb_le in E2.
      left; exists [], h, hs; repeat split; try assumption. intros ? [].
    + assert (Hn : ~ (h_page h = 1 /\ h_level h <= 2)%Z).
      { intros [E1 E2]. apply Z.eqb_eq in E1; apply Z.leb_le in E2.
        rewrite E1, E2 in E; discriminate. }
      destruct IH as [[before [h0 [after [-> [Hq [Hbefore Et]]]]]] | [Hnone Et]].
      * left; exists (h :: before), h0, after; repeat split; try tauto.
        intros h' [<- | Hin]; [exact Hn | apply Hbefore; exact Hin].
      * right; split; [|exact Et].
        intros h' [<- | Hin]; [exact Hn | apply Hnone; exact Hin].
Qed.

(** C3.  In every result of [extract_structure], the title is the text of
    the first entry of the returned headings with page 1 and level at most
    2, and the empty string when no entry is such. *)
Theorem extract_structure_title (fitz : Engine) (pdf_path : option str)
    (pdf_bytes : option bytes) (r : StructureResult) :
  extract_structure fitz pdf_path pdf_bytes = Return r ->
  (exists before h after,
      headings r = before ++ h :: after
      /\ (h_page h = 1 /\ h_level h <= 2)%Z
      /\ (forall h', In h' before -> ~ (h_page h' = 1 /\ h_level h' <= 2)%Z)
      /\ title r = h_text h)
  \/ ((forall h, In h (headings r) -> ~ (h_page h = 1 /\ h_level h <= 2)%Z)
      /\ title r = []).
Proof.
  unfold extract_structure.
  destruct (open_document fitz pdf_path pdf_bytes) as [doc| |]; try discriminate.
  intros H; inversion H; subst r; clear H.
  unfold structure_of; cbn [headings title].
  apply infer_title_first.
Qed.

(** C10.  With empty bytes (or no bytes) and no path, [extract_structure]
    raises the [ValueError] with its message and no document is opened;
    with non-empty bytes the path is not looked at: the document is the one
    the engine opens from the bytes. *)
Theorem extract_structure_inputs (fitz : Engine) :
  extract_structure fitz None (Some [])
  = ValueError (lit "Must provide pdf_path or pdf_bytes")
  /\ extract_structure fitz None None = extract_structure fitz None (Some [])
  /\ open_document fitz None (Some [])
     = ValueError (lit "Must provide pdf_path or pdf_bytes")
  /\ forall (path : str) (byte : Byte.byte) (rest : bytes),
       extract_structure fitz (Some path) (Some (byte :: rest))
       = extract_structure fitz None (Some (byte :: rest))
       /\ open_document fitz (Some path) (Some (byte :: rest))
          = match open_stream fitz (byte :: rest) with
            | Some doc => Return doc
            | None => EngineError
            end.
Proof.
  repeat split; reflexivity.
Qed.

(** The seeded sets are sets. *)
Lemma seeded_set_lawful (seed : N) : set_lawful (seeded_set seed).
Proof.
  split; [reflexivity|]. split.
  - intros t u s; cbn [set_in set_add seeded_set]; unfold seeded_add.
    destruct (existsb (str_eqb u) s) eqn:Eu.
    + destruct (str_eqb t u) eqn:Etu; [|reflexivity].
      apply str_eqb_eq in Etu; subst t; exact Eu.
    + rewrite existsb_app; cbn [existsb].
      rewrite (orb_comm (str_eqb t u)), orb_assoc, <- existsb_app, firstn_skipn.
      apply orb_comm.
  - intros t s; cbn [set_in set_iter seeded_set].
    rewrite <- (set_mem_In t s); reflexivity.
Qed.

(** The headings do not depend on the set of the run: whatever its layout,
    the loop gets the answers the list of seen texts gives. *)
Lemma infer_in_fold (S : PySet) (body_size min_ratio : float)
    (blocks : list TextBlock) :
  set_lawful S ->
  forall (hs : list Heading) (s : set_state S) (seen : list str),
    (forall t, set_in S t s = set_mem t seen) ->
    fst (fold_left (infer_step_in S body_size min_ratio) blocks (hs, s))
    = fst (fold_left (infer_step body_size min_ratio) blocks (hs, seen)).
Proof.
  intros [_ [Hadd _]].
  induction blocks as [|b blocks IH]; intros hs s seen Hinv; [reflexivity|].
  cbn [fold_left]. unfold infer_step_in at 2, infer_step at 2.
  rewrite Hinv.
  destruct (set_mem (text b) seen); [apply IH; exact Hinv|].
  destruct (is_likely_heading (text b)); simpl; [|apply IH; exact Hinv].
  destruct (0 <? block_level b body_size min_ratio)%Z; [|apply IH; exact Hinv].
  apply IH; intros t. rewrite Hadd, Hinv; reflexivity.
Qed.

Lemma infer_headings_in_any (S : PySet) (blocks : list TextBlock)
    (body_size min_ratio : float) :
  set_lawful S ->
  infer_headings_in S blocks body_size min_ratio
  = infer_headings blocks body_size min_ratio.
Proof.
  intros Hlaw; unfold infer_headings_in, infer_headings.
  apply (infer_in_fold S body_size min_ratio blocks Hlaw).
  intros t; destruct Hlaw as [Hnew _]; rewrite Hnew; reflexivity.
Qed.

Lemma extract_structure_in_any (run : Run) (pdf_path : option str)
    (pdf_bytes : option bytes) :
  set_lawful (run_set run) ->
  extract_structure_in run pdf_path pdf_bytes
  = extract_structure (run_engine run) pdf_path pdf_bytes.
Proof.
  intros Hlaw; unfold extract_structure_in, extract_structure.
  destruct (open_document (run_engine run) pdf_path pdf_bytes); try reflexivity.
  unfold structure_of_in, structure_of.
  rewrite (infer_headings_in_any _ _ _ _ Hlaw); reflexivity.
Qed.

(** C8.  Two runs of the program, each with its own engine and its own
    set of seen texts (laid out by that run's string hashes), on one input:
    when the two engines report the same document for that input,
    [extract_structure] returns the same result in both runs, and so does
    the command line when that input is the one it is given. *)
Theorem extract_structure_deterministic (run1 run2 : Run)
    (pdf_path : option str) (pdf_bytes : option bytes) :
  set_lawful (run_set run1) ->
  set_lawful (run_set run2) ->
  open_document (run_engine run1) pdf_path pdf_bytes
  = open_document (run_engine run2) pdf_path pdf_bytes ->
  extract_structure_in run1 pdf_path pdf_bytes
  = extract_structure_in run2 pdf_path pdf_bytes
  /\ (forall argv stdin,
         cli_source argv stdin = (pdf_path, pdf_bytes) ->
         main_in run1 argv stdin = main_in run2 argv stdin).
Proof.
  intros Hlaw1 Hlaw2 Hsame.
  assert (Hx : extract_structure_in run1 pdf_path pdf_bytes
               = extract_structure_in run2 pdf_path pdf_bytes).
  { unfold extract_structure_in; rewrite Hsame.
    destruct (open_document (run_engine run2) pdf_path pdf_bytes);
      try reflexivity.
    unfold structure_of_in.
    rewrite (infer_headings_in_any _ _ _ _ Hlaw1),
            (infer_headings_in_any _ _ _ _ Hlaw2); reflexivity. }
  split; [exact Hx|].
  intros argv stdin Hsrc; unfold main_in, cli_source in *.
  destruct argv as [|prog [|arg rest]].
  - inversion Hsrc; subst; rewrite Hx; reflexivity.
  - inversion Hsrc; subst; rewrite Hx; reflexivity.
  - destruct (negb (str_eqb arg (lit "-")));
      inversion Hsrc; subst; rewrite Hx; reflexivity.
Qed.

(* ================================================================= *)
(** ** Further properties: trimming *)

Lemma lstrip_head (s : str) (c : char) (rest : str) :
  lstrip s = c :: rest -> isspace c = false.
Proof.
  induction s as [|d s IH]; simpl; [discriminate|].
  destruct (isspace d) eqn:E; [exact IH|].
  intros H; inversion H; subst; exact E.
Qed.

Lemma lstrip_split (s : str) :
  exists spaces, s = spaces ++ lstrip s /\ forallb isspace spaces = true.
Proof.
  induction s as [|d s [spaces [E H]]]; simpl.
  - exists []; split; reflexivity.
  - destruct (isspace d) eqn:Ed.
    + exists (d :: spaces); simpl; rewrite Ed, H, <- E; split; reflexivity.
    + exists []; split; reflexivity.
Qed.

Lemma rstrip_last (s rest : str) (c : char) :
  rstrip s = rest ++ [c] -> isspace c = false.
Proof.
  unfold rstrip; intros H.
  apply (f_equal (@rev char)) in H.
  rewrite rev_involutive, rev_app_distr in H; simpl in H.
  exact (lstrip_head _ _ _ H).
Qed.

Lemma rstrip_split (s : str) :
  exists spaces, s = rstrip s ++ spaces /\ forallb isspace spaces = true.
Proof.
  unfold rstrip. destruct (lstrip_split (rev s)) as [spaces [E H]].
  exists (rev spaces); split.
  - rewrite <- rev_app_distr, <- E, rev_involutive; reflexivity.
  - rewrite forallb_forall in *; intros c Hc; apply H, in_rev; exact Hc.
Qed.

Lemma strip_trimmed (s : str) : trimmed (strip s).
Proof.
  unfold strip; split.
  - intros c rest E.
    destruct (rstrip_split (lstrip s)) as [spaces [Es _]].
    rewrite E in Es; simpl in Es. exact (lstrip_head _ _ _ Es).
  - intros rest c E; exact (rstrip_last _ _ _ E).
Qed.

Lemma strip_split (s : str) :
  exists left right,
    s = left ++ strip s ++ right
    /\ forallb isspace left = true /\ forallb isspace right = true.
Proof.
  destruct (lstrip_split s) as [left [El Hl]].
  destruct (rstrip_split (lstrip s)) as [right [Er Hr]].
  exists left, right; unfold strip; rewrite <- Er, <- El; auto.
Qed.

(** Stripping leaves nothing exactly when every character is whitespace. *)
Lemma strip_empty (s : str) : strip s = [] <-> forallb isspace s = true.
Proof.
  split.
  - intros E. destruct (strip_split s) as [left [right [Es [Hl Hr]]]].
    rewrite E in Es; simpl in Es; rewrite Es, forallb_app, Hl, Hr; reflexivity.
  - intros H. destruct (strip s) as [|c rest] eqn:E; [reflexivity|].
    destruct (strip_trimmed s) as [Hhead _]. rewrite E in Hhead.
    specialize (Hhead c rest eq_refl).
    destruct (strip_split s) as [left [right [Es _]]].
    rewrite forallb_forall in H.
    rewrite (H c) in Hhead; [discriminate|].
    rewrite Es, E; apply in_or_app; right; left; reflexivity.
Qed.

Lemma lstrip_id (c : char) (rest : str) :
  isspace c = false -> lstrip (c :: rest) = c :: rest.
Proof. intros E; simpl; rewrite E; reflexivity. Qed.

Lemma rstrip_id (rest : str) (c : char) :
  isspace c = false -> rstrip (rest ++ [c]) = rest ++ [c].
Proof.
  intros E; unfold rstrip; rewrite rev_app_distr; simpl; rewrite E.
  simpl; rewrite rev_involutive; reflexivity.
Qed.

Lemma rstrip_space (s : str) (c : char) :
  isspace c = true -> rstrip (s ++ [c]) = rstrip s.
Proof.
  intros E; unfold rstrip; rewrite rev_app_distr; simpl; rewrite E; reflexivity.
Qed.

(* ================================================================= *)
(** ** Further properties: the text blocks *)

Lemma flt_number (a b : float) :
  (a <? b)%float = true -> (b =? b)%float = true.
Proof.
  rewrite ltb_spec, FloatAxioms.eqb_spec, SFeqb_true; unfold SFltb.
  destruct (Prim2SF a) as [[]|[]| |[] ma ea], (Prim2SF b) as [[]|[]| |[] mb eb];
    simpl; try discriminate; intros _;
    try (left; split; exact I); right; split; congruence.
Qed.

Lemma counted_texts_cons (span : Span) (spans : list Span) :
  counted_texts (span :: spans)
  = if span_counts span
    then strip (get (span_text span) []) :: counted_texts spans
    else counted_texts spans.
Proof. reflexivity. Qed.

(** The loop appends each counted text followed by one space. *)
Lemma scan_text (spans : list Span) :
  forall st : LineState,
    line_text (fold_left span_step spans st)
    = line_text st
      ++ concat (map (fun t => t ++ lit " ") (counted_texts spans)).
Proof.
  induction spans as [|span spans IH]; intros st.
  - simpl; rewrite app_nil_r; reflexivity.
  - cbn [fold_left]; rewrite IH, counted_texts_cons.
    unfold span_step, span_counts.
    destruct (truthy (strip (get (span_text span) []))); simpl negb; cbv iota.
    + destruct (line_font_size st <? get (span_size span) 0)%float;
        cbn [line_text map concat]; rewrite <- !app_assoc; reflexivity.
    + reflexivity.
Qed.

Lemma counted_texts_trimmed (spans : list Span) :
  Forall (fun t => t <> [] /\ trimmed t) (counted_texts spans).
Proof.
  unfold counted_texts; apply Forall_forall; intros t Ht.
  apply filter_In in Ht; destruct Ht as [Ht Htruthy].
  apply in_map_iff in Ht; destruct Ht as [span [<- _]].
  split; [|apply strip_trimmed].
  intros E; rewrite E in Htruthy; discriminate.
Qed.

Lemma counted_texts_In (spans : list Span) (span : Span) :
  In span spans -> span_counts span = true -> counted_texts spans <> [].
Proof.
  intros Hin Hc E.
  assert (H : In (strip (get (span_text span) [])) (counted_texts spans)).
  { unfold counted_texts; apply filter_In; split; [|exact Hc].
    apply in_map_iff; exists span; split; [reflexivity | exact Hin]. }
  rewrite E in H; exact H.
Qed.

Lemma concat_join (ts : list str) :
  ts <> [] ->
  concat (map (fun t => t ++ lit " ") ts) = join_space ts ++ lit " ".
Proof.
  induction ts as [|t [|t' ts] IH]; intros Hne; [congruence | |].
  - simpl; rewrite app_nil_r; reflexivity.
  - change (concat (map (fun t => t ++ lit " ") (t :: t' :: ts)))
      with ((t ++ lit " ") ++ concat (map (fun t => t ++ lit " ") (t' :: ts))).
    rewrite IH by discriminate.
    change (join_space (t :: t' :: ts)) with (t ++ lit " " ++ join_space (t' :: ts)).
    rewrite <- !app_assoc; reflexivity.
Qed.

Lemma join_space_head (ts : list str) :
  ts <> [] -> Forall (fun t => t <> [] /\ trimmed t) ts ->
  exists c rest, join_space ts = c :: rest /\ isspace c = false.
Proof.
  destruct ts as [|t ts]; intros Hne Hall; [congruence|].
  inversion Hall as [|? ? [Ht [Hhead _]] _]; subst.
  destruct t as [|c rest]; [congruence|].
  destruct ts as [|t' ts].
  - exists c, rest; split; [reflexivity | apply (Hhead c rest); reflexivity].
  - exists c, (rest ++ lit " " ++ join_space (t' :: ts)).
    split; [reflexivity | apply (Hhead c rest); reflexivity].
Qed.

Lemma join_space_last (ts : list str) :
  ts <> [] -> Forall (fun t => t <> [] /\ trimmed t) ts ->
  exists rest c, join_space ts = rest ++ [c] /\ isspace c = false.
Proof.
  induction ts as [|t [|t' ts] IH]; intros Hne Hall; [congruence | |].
  - inversion Hall as [|? ? [Ht [_ Hlast]] _]; subst.
    destruct (exists_last Ht) as [rest [c E]].
    exists rest, c; split; [exact E | apply (Hlast rest c); exact E].
  - inversion Hall as [|? ? _ Hall']; subst.
    destruct (IH ltac:(discriminate) Hall') as [rest [c [E Hc]]].
    exists (t ++ lit " " ++ rest), c; split; [|exact Hc].
    change (join_space (t :: t' :: ts)) with (t ++ lit " " ++ join_space (t' :: ts)).
    rewrite E, <- !app_assoc; reflexivity.
Qed.

Lemma strip_joined (ts : list str) :
  isspace 32%N = true ->
  ts <> [] -> Forall (fun t => t <> [] /\ trimmed t) ts ->
  strip (concat (map (fun t => t ++ lit " ") ts)) = join_space ts.
Proof.
  intros Hsp Hne Hall. rewrite (concat_join ts Hne).
  destruct (join_space_head ts Hne Hall) as [c [rest [E Hc]]].
  destruct (join_space_last ts Hne Hall) as [rest' [c' [E' Hc']]].
  unfold strip. rewrite E; cbn [app]; rewrite (lstrip_id c _ Hc).
  change (c :: rest ++ lit " ") with ((c :: rest) ++ [32%N]).
  rewrite (rstrip_space _ _ Hsp), <- E, E'; apply rstrip_id; exact Hc'.
Qed.

Lemma strip_counted_nonempty (ts : list str) :
  ts <> [] -> Forall (fun t => t <> [] /\ trimmed t) ts ->
  strip (concat (map (fun t => t ++ lit " ") ts)) <> [].
Proof.
  intros Hne Hall E. apply strip_empty in E.
  rewrite (concat_join ts Hne) in E.
  destruct (join_space_head ts Hne Hall) as [c [rest [Ej Hc]]].
  rewrite Ej in E; simpl in E; rewrite Hc in E; discriminate.
Qed.

Lemma scan_line_text (line : Line) :
  line_text (scan_line line)
  = concat (map (fun t => t ++ lit " ")
                (counted_texts (get (line_spans line) []))).
Proof. unfold scan_line; rewrite scan_text; reflexivity. Qed.

(** What [line_block] puts in the block it returns. *)
Lemma line_block_fields (page_num : nat) (line : Line) (b : TextBlock) :
  line_block page_num line = Some b ->
  text b = strip (line_text (scan_line line))
  /\ text b <> []
  /\ (0 <? font_size b)%float = true
  /\ page b = (Z.of_nat page_num + 1)%Z.
Proof.
  unfold line_block; intros Hb.
  destruct (truthy (strip (line_text (scan_line line)))
            && (0 <? line_font_size (scan_line line))%float) eqn:Eemit;
    [|discriminate].
  apply andb_true_iff in Eemit; destruct Eemit as [Htext Hpos].
  destruct (get (line_bbox line) (0, 0, 0, 0)%float) as [[[x0 y0] x1] y1].
  inversion Hb; subst b; cbn [text font_size page].
  repeat split; try assumption.
  intros E; rewrite E in Htext; discriminate.
Qed.

(** X1.  Every block of [extract_text_blocks] has a text that is not empty
    and neither starts nor ends with whitespace, a font size that is
    greater than 0 (so a number), and a page between 1 and the number of
    pages. *)
Theorem extract_text_blocks_wellformed (doc : Document) (b : TextBlock) :
  In b (extract_text_blocks doc) ->
  text b <> []
  /\ trimmed (text b)
  /\ (0 <? font_size b)%float = true
  /\ (font_size b =? font_size b)%float = true
  /\ (1 <= page b <= Z.of_nat (length doc))%Z.
Proof.
  intros Hin; apply extract_text_blocks_lines in Hin.
  destruct Hin as [page_num [line [[pg [block [Hn _]]] Hb]]].
  destruct (line_block_fields _ _ _ Hb) as [Et [Hne [Hpos Ep]]].
  split; [exact Hne|]. split; [rewrite Et; apply strip_trimmed|].
  split; [exact Hpos|]. split; [exact (flt_number _ _ Hpos)|].
  assert (page_num < length doc) by (apply nth_error_Some; congruence).
  lia.
Qed.

(** X2.  When the space character counts as whitespace, the text of every
    block of [extract_text_blocks] is the trimmed texts of the non-blank
    spans of its line, joined by single spaces. *)
Theorem extract_text_blocks_text (doc : Document) (b : TextBlock) :
  isspace 32%N = true ->
  In b (extract_text_blocks doc) ->
  exists page_num line,
    doc_line doc page_num line
    /\ line_block page_num line = Some b
    /\ text b = join_space (counted_texts (get (line_spans line) [])).
Proof.
  intros Hsp Hin; apply extract_text_blocks_lines in Hin.
  destruct Hin as [page_num [line [Hline Hb]]].
  exists page_num, line; split; [exact Hline|]. split; [exact Hb|].
  destruct (line_block_fields _ _ _ Hb) as [Et [Hne _]].
  rewrite Et, scan_line_text in *.
  destruct (counted_texts (get (line_spans line) [])) as [|t ts] eqn:E.
  - exfalso; apply Hne. simpl. unfold strip, rstrip; reflexivity.
  - rewrite <- E; apply strip_joined; [exact Hsp | congruence |].
    apply counted_texts_trimmed.
Qed.

Lemma line_block_span (page_num : nat) (line : Line) (b : TextBlock) :
  line_block page_num line = Some b ->
  exists span,
    In span (get (line_spans line) [])
    /\ span_counts span = true
    /\ (0 <? get (span_size span) 0%float)%float = true.
Proof.
  intros Hb.
  destruct (line_block_fields _ _ _ Hb) as [_ [_ [Hpos _]]].
  destruct (line_block_selected _ _ _ Hb)
    as [before [span [after [E [Hc [Esz _]]]]]].
  exists span; rewrite E, <- Esz; repeat split; try assumption.
  apply in_or_app; right; left; reflexivity.
Qed.

(** X3.  A line yields a block exactly when one of its spans with a
    non-blank text has a size greater than 0. *)
Theorem line_block_emitted (page_num : nat) (line : Line) :
  (exists b, line_block page_num line = Some b)
  <-> exists span,
        In span (get (line_spans line) [])
        /\ span_counts span = true
        /\ (0 <? get (span_size span) 0%float)%float = true.
Proof.
  split.
  - intros [b Hb]; exact (line_block_span _ _ _ Hb).
  - intros [span [Hin [Hc Hpos]]].
    pose proof (scan_line_inv line) as Hinv.
    assert (Hsize : (0 <? line_font_size (scan_line line))%float = true).
    { destruct Hinv as [[_ Hsmall] | [before [sp [after [_ [_ [Hp [Esz _]]]]]]]].
      - unfold size_of in Hsmall; rewrite (Hsmall span Hin Hc) in Hpos; discriminate.
      - rewrite Esz; exact Hp. }
    assert (Htext : truthy (strip (line_text (scan_line line))) = true).
    { rewrite scan_line_text.
      destruct (strip _) eqn:E; [|reflexivity].
      exfalso; revert E; apply strip_counted_nonempty.
      - exact (counted_texts_In _ _ Hin Hc).
      - apply counted_texts_trimmed. }
    unfold line_block; rewrite Htext, Hsize; simpl.
    destruct (get (line_bbox line) (0, 0, 0, 0)%float) as [[[x0 y0] x1] y1].
    eexists; reflexivity.
Qed.

(* ================================================================= *)
(** ** Further properties: page order *)

Lemma ascending_app (l1 l2 : list Z) :
  ascending l1 -> ascending l2 ->
  (forall p q, In p l1 -> In q l2 -> (p <= q)%Z) ->
  ascending (l1 ++ l2).
Proof.
  induction l1 as [|p l1 IH]; intros H1 H2 H12; simpl; [exact H2|].
  destruct H1 as [Hp H1]; split.
  - intros q Hq; apply in_app_or in Hq; destruct Hq as [Hq | Hq].
    + apply Hp; exact Hq.
    + apply H12; [left; reflexivity | exact Hq].
  - apply IH; [exact H1 | exact H2|].
    intros; apply H12; [right|]; assumption.
Qed.

Lemma ascending_constant (l : list Z) (p : Z) :
  (forall q, In q l -> q = p) -> ascending l.
Proof.
  induction l as [|q l IH]; intros H; simpl; [exact I|].
  split; [|apply IH; intros; apply H; right; assumption].
  intros q' Hq'. rewrite (H q), (H q'); [lia | right; exact Hq' | left; reflexivity].
Qed.

Lemma ascending_sublist (l1 l2 : list Z) :
  sublist l1 l2 -> ascending l2 -> ascending l1.
Proof.
  intros Hsub; induction Hsub as [|a l1 l2 Hsub IH|a l1 l2 Hsub IH]; simpl.
  - tauto.
  - intros [_ H]; apply IH; exact H.
  - intros [Ha H]; split; [|apply IH; exact H].
    intros q Hq; apply Ha.
    clear -Hsub Hq; induction Hsub; simpl in *; tauto.
Qed.

Lemma sublist_map {A B : Type} (f : A -> B) (l1 l2 : list A) :
  sublist l1 l2 -> sublist (map f l1) (map f l2).
Proof. intros H; induction H; simpl; constructor; assumption. Qed.

Lemma sublist_In {A : Type} (l1 l2 : list A) (a : A) :
  sublist l1 l2 -> In a l1 -> In a l2.
Proof. intros H; induction H; simpl; tauto. Qed.

(** What is collected page by page, each item carrying its page's number,
    comes out in page order. *)
Lemma ascending_pages {A B : Type} (f : nat -> A -> list B) (pg : B -> Z) :
  (forall n a b, In b (f n a) -> pg b = (Z.of_nat n + 1)%Z) ->
  forall l : list A,
    ascending (map pg (flat_map (fun '(n, a) => f n a) (enumerate l))).
Proof.
  intros Hpg l; unfold enumerate.
  assert (G : forall k,
             ascending (map pg (flat_map (fun '(n, a) => f n a)
                                         (combine (seq k (length l)) l)))
             /\ forall b, In b (flat_map (fun '(n, a) => f n a)
                                         (combine (seq k (length l)) l)) ->
                          (Z.of_nat k + 1 <= pg b)%Z).
  { induction l as [|a l IH]; intros k; simpl; [split; [exact I | intros ? []]|].
    destruct (IH (S k)) as [Hasc Hlow]; split.
    - rewrite map_app; apply ascending_app; [|exact Hasc|].
      + apply (ascending_constant _ (Z.of_nat k + 1)).
        intros q Hq; apply in_map_iff in Hq; destruct Hq as [b [<- Hb]].
        apply (Hpg k a b Hb).
      + intros p q Hp Hq.
        apply in_map_iff in Hp; destruct Hp as [b [<- Hb]].
        apply in_map_iff in Hq; destruct Hq as [b' [<- Hb']].
        rewrite (Hpg k a b Hb). specialize (Hlow b' Hb'); lia.
    - intros b Hb; apply in_app_or in Hb; destruct Hb as [Hb | Hb].
      + rewrite (Hpg k a b Hb); lia.
      + specialize (Hlow b Hb); lia. }
  apply G.
Qed.

Lemma page_blocks_page (page_num : nat) (pg : Page) (b : TextBlock) :
  In b (page_blocks page_num pg) -> page b = (Z.of_nat page_num + 1)%Z.
Proof.
  unfold page_blocks; intros Hb; apply in_flat_map in Hb.
  destruct Hb as [block [_ Hb]].
  destruct (block_type block) as [[| |]|]; try contradiction.
  unfold lines_blocks in Hb; apply in_flat_map in Hb.
  destruct Hb as [line [_ Hb]].
  destruct (line_block page_num line) as [b'|] eqn:E; [|contradiction].
  destruct Hb as [<- | []].
  apply (line_block_fields _ _ _ E).
Qed.

Lemma page_tables_page (page_num : nat) (pg : Page) (r : TableRecord) :
  In r (page_tables page_num pg) -> t_page r = (Z.of_nat page_num + 1)%Z.
Proof.
  unfold page_tables; destruct (find_tables pg) as [found|]; [|contradiction].
  intros Hr; apply in_flat_map in Hr; destruct Hr as [table [_ Hr]].
  rewrite table_record_rows in Hr.
  destruct (2 <=? length (extract table)); [|contradiction].
  destruct Hr as [<- | []]; reflexivity.
Qed.

(** X4.  The blocks of [extract_text_blocks] come in page order, and a
    block of a type other than 0, or without a type, contributes
    nothing. *)
Theorem extract_text_blocks_order :
  (forall doc : Document, ascending (map page (extract_text_blocks doc)))
  /\ (forall doc : Document,
         (forall pg block, In pg doc ->
                           In block (get (td_blocks (get_text pg)) []) ->
                           block_type block <> Some 0%Z) ->
         extract_text_blocks doc = []).
Proof.
  split.
  - intros doc; unfold extract_text_blocks.
    apply (ascending_pages page_blocks page page_blocks_page).
  - intros doc Hnone.
    destruct (extract_text_blocks doc) as [|b bs] eqn:E; [reflexivity|].
    assert (Hb : In b (extract_text_blocks doc)) by (rewrite E; left; reflexivity).
    apply extract_text_blocks_lines in Hb.
    destruct Hb as [page_num [line [[pg [block [Hn [Hblock [Et _]]]]] _]]].
    exfalso; apply (Hnone pg block); [|exact Hblock | exact Et].
    apply (nth_error_In _ _ Hn).
Qed.

Lemma detect_tables_In (doc : Document) (r : TableRecord) :
  In r (detect_tables doc) ->
  exists page_num pg found table,
    nth_error doc page_num = Some pg
    /\ find_tables pg = Some found
    /\ In table found
    /\ r = record_of page_num (extract table).
Proof.
  unfold detect_tables; rewrite in_flat_map.
  intros [[page_num pg] [Hin Hr]].
  apply In_enumerate in Hin. unfold page_tables in Hr.
  destruct (find_tables pg) as [found|] eqn:Ef; [|contradiction].
  apply in_flat_map in Hr; destruct Hr as [table [Ht Hr]].
  rewrite table_record_rows in Hr.
  destruct (2 <=? length (extract table)); [|contradiction].
  destruct Hr as [<- | []].
  exists page_num, pg, found, table; repeat split; assumption.
Qed.

(** X5.  The records of [detect_tables] come in page order, their pages lie
    between 1 and the number of pages, each holds as many columns as it has
    headers, and pages whose engine has no table finder add nothing: on a
    document where no page has one the list is empty. *)
Theorem detect_tables_order :
  (forall doc : Document, ascending (map t_page (detect_tables doc)))
  /\ (forall (doc : Document) (r : TableRecord),
         In r (detect_tables doc) ->
         (1 <= t_page r <= Z.of_nat (length doc))%Z
         /\ t_cols r = length (t_headers r))
  /\ (forall doc : Document,
         (forall pg, In pg doc -> find_tables pg = None) ->
         detect_tables doc = []).
Proof.
  split; [|split].
  - intros doc; unfold detect_tables.
    apply (ascending_pages page_tables t_page page_tables_page).
  - intros doc r Hr. apply detect_tables_In in Hr.
    destruct Hr as [page_num [pg [found [table [Hn [_ [_ ->]]]]]]].
    unfold record_of; cbn [t_page t_cols t_headers].
    assert (page_num < length doc) by (apply nth_error_Some; congruence).
    split; [lia | reflexivity].
  - intros doc Hnone.
    destruct (detect_tables doc) as [|r rs] eqn:E; [reflexivity|].
    assert (Hr : In r (detect_tables doc)) by (rewrite E; left; reflexivity).
    apply detect_tables_In in Hr.
    destruct Hr as [page_num [pg [found [table [Hn [Ef _]]]]]].
    rewrite (Hnone pg (nth_error_In _ _ Hn)) in Ef; discriminate.
Qed.

(* ================================================================= *)
(** ** Further properties: the headings *)

Lemma kept_blocks_complete (body_size min_ratio : float) (blocks : list TextBlock) :
  forall (seen : list str) (b : TextBlock),
    In b blocks -> accepted body_size min_ratio b = true ->
    In (text b) seen
    \/ In (text b) (map text (kept_blocks body_size min_ratio seen blocks)).
Proof.
  induction blocks as [|b0 blocks IH]; intros seen b; simpl; [tauto|].
  intros [<- | Hin] Hacc.
  - destruct (set_mem (text b0) seen) eqn:Eseen.
    + left; apply set_mem_In; exact Eseen.
    + rewrite Hacc; right; left; reflexivity.
  - destruct (set_mem (text b0) seen) eqn:Eseen; [apply IH; assumption|].
    destruct (accepted body_size min_ratio b0); [|apply IH; assumption].
    destruct (IH (text b0 :: seen) b Hin Hacc) as [[E | H] | H].
    + right; left; exact E.
    + left; exact H.
    + right; right; exact H.
Qed.

Lemma kept_blocks_all_seen (body_size min_ratio : float) (blocks : list TextBlock) :
  forall seen : list str,
    (forall b, In b blocks -> accepted body_size min_ratio b = true ->
               In (text b) seen) ->
    kept_blocks body_size min_ratio seen blocks = [].
Proof.
  induction blocks as [|b0 blocks IH]; intros seen Hseen; simpl; [reflexivity|].
  destruct (set_mem (text b0) seen) eqn:Eseen.
  - apply IH; intros; apply Hseen; [right|]; assumption.
  - destruct (accepted body_size min_ratio b0) eqn:Eacc.
    + assert (H : set_mem (text b0) seen = true)
        by (apply set_mem_In, Hseen; [left; reflexivity | exact Eacc]).
      congruence.
    + apply IH; intros; apply Hseen; [right|]; assumption.
Qed.

Lemma heading_level_bold (ratio min_ratio : float) :
  (1 <= heading_level ratio true min_ratio <= 4)%Z.
Proof.
  unfold heading_level.
  repeat match goal with
         | |- context [if ?c then _ else _] => destruct c eqn:?; simpl
         end; try lia; rewrite orb_true_r in *; discriminate.
Qed.

(** X6.  No accepted text is lost: the text of every block that passes the
    filter and is given a level is the text of a returned heading; in
    particular the text of every bold block that passes the filter,
    whatever its size. *)
Theorem infer_headings_complete (blocks : list TextBlock)
    (body_size min_ratio : float) (b : TextBlock) :
  In b blocks ->
  is_likely_heading (text b) = true ->
  ((0 < block_level b body_size min_ratio)%Z \/ is_bold b = true) ->
  In (text b) (map h_text (infer_headings blocks body_size min_ratio)).
Proof.
  intros Hin Hlikely Hlevel.
  assert (Hacc : accepted body_size min_ratio b = true).
  { unfold accepted; rewrite Hlikely; simpl. apply Z.ltb_lt.
    destruct Hlevel as [H | Hbold]; [exact H|].
    unfold block_level; rewrite Hbold.
    pose proof (heading_level_bold (block_ratio b body_size) min_ratio); lia. }
  rewrite infer_headings_kept, heading_of_text.
  destruct (kept_blocks_complete body_size min_ratio blocks [] b Hin Hacc)
    as [[] | H]; exact H.
Qed.

Lemma SFle_trans (a b c : spec_float) :
  SFleb a b = true -> SFleb b c = true -> SFleb a c = true.
Proof.
  unfold SFleb.
  destruct a as [[]|[]| |[] ma ea], b as [[]|[]| |[] mb eb],
           c as [[]|[]| |[] mc ec]; simpl;
    try discriminate; try reflexivity;
    change (Pos.compare_cont Eq) with Pos.compare;
    repeat match goal with
           | |- context [Z.compare ?u ?v] => destruct (Z.compare_spec u v)
           | |- context [Pos.compare ?u ?v] => destruct (Pos.compare_spec u v)
           end; simpl; try discriminate; try reflexivity; intros; exfalso; lia.
Qed.

Lemma fle_trans (a b c : float) :
  (a <=? b)%float = true -> (b <=? c)%float = true -> (a <=? c)%float = true.
Proof. rewrite !leb_spec; apply SFle_trans. Qed.

(** X7.  The level never gets less prominent when the ratio grows or when
    the block is bold instead of regular; a bold block always gets a level;
    and levels 1 to 3 do not depend on the minimum ratio. *)
Theorem heading_level_monotone (min_ratio : float) :
  (forall (r1 r2 : float) (bold : bool),
      (r1 <=? r2)%float = true ->
      (0 < heading_level r1 bold min_ratio)%Z ->
      (1 <= heading_level r2 bold min_ratio <= heading_level r1 bold min_ratio)%Z)
  /\ (forall ratio : float,
         (1 <= heading_level ratio true min_ratio)%Z
         /\ ((0 < heading_level ratio false min_ratio)%Z ->
             (heading_level ratio true min_ratio
              <= heading_level ratio false min_ratio)%Z))
  /\ (forall (ratio : float) (bold : bool) (other_min : float),
         (1 <= heading_level ratio bold min_ratio <= 3)%Z ->
         heading_level ratio bold other_min
         = heading_level ratio bold min_ratio).
Proof.
  split; [|split].
  - intros r1 r2 bold Hle.
    assert (Hmono : forall t, (t <=? r1)%float = true -> (t <=? r2)%float = true)
      by (intros t Ht; exact (fle_trans t r1 r2 Ht Hle)).
    unfold heading_level.
    destruct (2.0 <=? r1)%float eqn:A1; [rewrite (Hmono _ A1)|];
    destruct (1.5 <=? r1)%float eqn:A2; try rewrite (Hmono _ A2);
    destruct (1.3 <=? r1)%float eqn:A3; try rewrite (Hmono _ A3);
    destruct (1.25 <=? r1)%float eqn:A4; try rewrite (Hmono _ A4);
    destruct (1.15 <=? r1)%float eqn:A5; try rewrite (Hmono _ A5);
    destruct (min_ratio <=? r1)%float eqn:A6; try rewrite (Hmono _ A6);
    repeat match goal with
           | |- context [(?t <=? r2)%float] => destruct (t <=? r2)%float
           end;
    destruct bold; simpl; lia.
  - intros ratio; split; [apply heading_level_bold|].
    unfold heading_level.
    repeat match goal with
           | |- context [(?t <=? ratio)%float] => destruct (t <=? ratio)%float
           end; simpl; lia.
  - intros ratio bold other_min. unfold heading_level.
    destruct ((2.0 <=? ratio)%float || (1.5 <=? ratio)%float && bold);
      [reflexivity|].
    destruct ((1.5 <=? ratio)%float || (1.3 <=? ratio)%float && bold);
      [reflexivity|].
    destruct ((1.25 <=? ratio)%float || (1.15 <=? ratio)%float && bold);
      [reflexivity|].
    destruct ((min_ratio <=? ratio)%float || bold); lia.
Qed.

(** X8.  Headings found in a list of blocks stay, in place, when more
    blocks follow: the headings of [l1 ++ l2] are those of [l1] followed by
    headings whose texts are new; and repeating the whole list adds no
    heading. *)
Theorem infer_headings_app (body_size min_ratio : float) :
  (forall l1 l2 : list TextBlock,
      exists rest,
        infer_headings (l1 ++ l2) body_size min_ratio
        = infer_headings l1 body_size min_ratio ++ rest
        /\ forall h, In h rest ->
                     ~ In (h_text h)
                          (map h_text (infer_headings l1 body_size min_ratio)))
  /\ (forall l : list TextBlock,
         infer_headings (l ++ l) body_size min_ratio
         = infer_headings l body_size min_ratio).
Proof.
  assert (Happ : forall l1 l2,
             infer_headings (l1 ++ l2) body_size min_ratio
             = infer_headings l1 body_size min_ratio
               ++ map (heading_of body_size min_ratio)
                    (kept_blocks body_size min_ratio
                       (rev (map text (kept_blocks body_size min_ratio [] l1)))
                       l2)).
  { intros l1 l2. unfold infer_headings.
    rewrite fold_left_app, (infer_fold body_size min_ratio l1 [] []).
    rewrite infer_fold, app_nil_r; reflexivity. }
  split.
  - intros l1 l2; eexists; split; [apply Happ|].
    intros h Hh Hin. apply in_map_iff in Hh; destruct Hh as [b [<- Hb]].
    destruct (kept_blocks_sound _ _ _ _ _ Hb) as [_ [_ Hn]].
    apply Hn. rewrite infer_headings_kept, heading_of_text in Hin.
    apply in_rev in Hin; exact Hin.
  - intros l. rewrite Happ, kept_blocks_all_seen; [apply app_nil_r|].
    intros b Hb Hacc. apply in_rev; rewrite rev_involutive.
    destruct (kept_blocks_complete body_size min_ratio l [] b Hb Hacc)
      as [[] | H]; exact H.
Qed.

(* ================================================================= *)
(** ** Further properties: ties in the body font size *)

Lemma counter_incr_add_key (counter : list (float * nat)) (elem : float) :
  map fst (counter_incr counter elem) = add_key (map fst counter) elem.
Proof.
  unfold add_key; induction counter as [|[k n] counter IH]; simpl; [reflexivity|].
  destruct (k =? elem)%float; simpl; [reflexivity|].
  rewrite IH. destruct (existsb _ (map fst counter)); reflexivity.
Qed.

Lemma Counter_add_key (elems : list float) :
  forall counter : list (float * nat),
    map fst (fold_left counter_incr elems counter)
    = fold_left add_key elems (map fst counter).
Proof.
  induction elems as [|e elems IH]; intros counter; simpl; [reflexivity|].
  rewrite IH, counter_incr_add_key; reflexivity.
Qed.

Lemma add_key_prefix (elems : list float) :
  forall keys, exists extra, fold_left add_key elems keys = keys ++ extra.
Proof.
  induction elems as [|e elems IH]; intros keys; simpl.
  - exists []; rewrite app_nil_r; reflexivity.
  - destruct (IH (add_key keys e)) as [extra E]; rewrite E.
    unfold add_key; destruct (existsb _ keys).
    + exists extra; reflexivity.
    + exists (e :: extra); rewrite <- app_assoc; reflexivity.
Qed.

Lemma add_key_found (keys : list float) (elem : float) :
  (elem =? elem)%float = true ->
  exists k, In k (add_key keys elem) /\ (k =? elem)%float = true.
Proof.
  intros Hnum; unfold add_key.
  destruct (existsb (fun k => (k =? elem)%float) keys) eqn:E.
  - apply existsb_exists in E; exact E.
  - exists elem; split; [apply in_or_app; right; left; reflexivity | exact Hnum].
Qed.

Lemma app_eq_prefix {A : Type} (a b c d : list A) :
  a ++ b = c ++ d -> length a <= length c -> exists e, c = a ++ e.
Proof.
  revert c; induction a as [|x a IH]; intros c E Hlen; simpl in *.
  - exists c; reflexivity.
  - destruct c as [|y c]; simpl in *; [lia|].
    inversion E; subst.
    destruct (IH c ltac:(assumption) ltac:(lia)) as [e ->].
    exists e; reflexivity.
Qed.

(** A key stands in the counter after the keys of every number that comes
    before its first occurrence. *)
Lemma add_key_first (elems : list float) :
  forall keys k1 v k2,
    fold_left add_key elems keys = k1 ++ v :: k2 ->
    length keys <= length k1 ->
    exists before after,
      elems = before ++ v :: after
      /\ forall u, In u before -> (u =? u)%float = true ->
                   exists k, In k k1 /\ (k =? u)%float = true.
Proof.
  induction elems as [|e elems IH]; intros keys k1 v k2 E Hlen; simpl in E.
  - exfalso. apply (f_equal (@length float)) in E.
    rewrite length_app in E; simpl in E; lia.
  - destruct (Nat.le_gt_cases (length (add_key keys e)) (length k1)) as [Hle | Hgt].
    + destruct (IH _ _ _ _ E Hle) as [before [after [-> Hbefore]]].
      exists (e :: before), after; split; [reflexivity|].
      intros u [<- | Hu] Hnum; [|apply Hbefore; assumption].
      destruct (add_key_found keys e Hnum) as [k [Hk Hke]].
      exists k; split; [|exact Hke].
      destruct (add_key_prefix (before ++ v :: after) (add_key keys e)) as [extra Ee].
      rewrite Ee in E.
      destruct (app_eq_prefix _ _ _ _ E Hle) as [rest ->].
      apply in_or_app; left; exact Hk.
    + assert (Ha : add_key keys e = keys ++ [e]).
      { unfold add_key in Hgt |- *.
        destruct (existsb (fun k => (k =? e)%float) keys); [lia | reflexivity]. }
      rewrite Ha in E, Hgt.
      rewrite length_app in Hgt; simpl in Hgt.
      destruct (add_key_prefix elems (keys ++ [e])) as [extra Ee].
      rewrite Ee, <- app_assoc in E; simpl in E.
      assert (Hk : length keys = length k1) by lia.
      destruct (app_eq_prefix _ _ _ _ E ltac:(lia)) as [rest Hrest].
      assert (rest = []).
      { apply (f_equal (@length float)) in Hrest.
        rewrite length_app in Hrest; destruct rest; [reflexivity | simpl in Hrest; lia]. }
      subst rest; rewrite app_nil_r in Hrest; subst k1.
      apply app_inv_head in E; inversion E; subst.
      exists [], elems; split; [reflexivity | intros ? []].
Qed.

(** [max] keeps the first of the largest counts: everything before the
    entry it returns has a strictly smaller count. *)
Lemma max_by_count_first (items : list (float * nat)) :
  forall best,
    exists c1 c2,
      best :: items = c1 ++ max_by_count best items :: c2
      /\ forall item, In item c1 -> snd item < snd (max_by_count best items).
Proof.
  induction items as [|item0 items IH]; intros best; simpl.
  - exists [], []; split; [reflexivity | intros ? []].
  - destruct (Nat.ltb_spec (snd best) (snd item0)) as [Hlt | Hge].
    + destruct (IH item0) as [c1 [c2 [E Hc1]]].
      destruct c1 as [|x c1]; simpl in E; injection E as E0 E1.
      * exists [best], c2; split; [simpl; congruence|].
        intros item [<- | []]; rewrite <- E0; exact Hlt.
      * subst x.
        exists (best :: item0 :: c1), c2; split; [simpl; congruence|].
        assert (snd item0 < snd (max_by_count item0 items))
          by (apply Hc1; left; reflexivity).
        intros item [<- | Hin]; [lia | apply Hc1; exact Hin].
    + destruct (IH best) as [c1 [c2 [E Hc1]]].
      destruct c1 as [|x c1]; simpl in E; injection E as E0 E1.
      * exists [], (item0 :: c2); split; [simpl; congruence | intros ? []].
      * subst x.
        exists (best :: item0 :: c1), c2; split; [simpl; congruence|].
        assert (snd best < snd (max_by_count best items))
          by (apply Hc1; left; reflexivity).
        intros item [<- | [<- | Hin]]; [assumption | lia |].
        apply Hc1; right; exact Hin.
Qed.

Lemma entry_count_eq (counter : list (float * nat)) item (u : float) :
  distinct_keys counter -> In item counter ->
  (fst item =? u)%float = true ->
  count_of counter u = snd item.
Proof.
  unfold count_of.
  induction counter as [|item0 counter IH]; simpl; [tauto|].
  intros [Hk Hd] [-> | Hin] Hu.
  - rewrite Hu; reflexivity.
  - destruct (fst item0 =? u)%float eqn:E0; [|apply IH; assumption].
    exfalso. rewrite (feqb_sym (fst item) u) in Hu.
    pose proof (Hk item Hin) as Hne.
    rewrite (feqb_trans _ _ _ E0 Hu) in Hne; discriminate.
Qed.

(** X9.  Among the most frequent rounded sizes [find_body_font_size]
    returns the one met first: when every rounded size is a number, the
    result is the rounded size of a block before which every block has a
    rounded size that occurs strictly less often. *)
Theorem find_body_font_size_first (blocks : list TextBlock) :
  blocks <> [] ->
  (forall b, In b blocks ->
             (py_round (font_size b) 1 =? py_round (font_size b) 1)%float = true) ->
  exists before b after,
    blocks = before ++ b :: after
    /\ find_body_font_size blocks = py_round (font_size b) 1
    /\ forall b', In b' before ->
                  occurrences (py_round (font_size b') 1) (rounded_sizes blocks)
                  < occurrences (find_body_font_size blocks) (rounded_sizes blocks).
Proof.
  intros Hne Hnum.
  unfold find_body_font_size.
  destruct blocks as [|b0 blocks0] eqn:Eb; [congruence|].
  rewrite <- Eb in *; clear Hne.
  assert (Ht : truthy blocks = true) by (rewrite Eb; reflexivity).
  rewrite Ht; simpl negb; cbv iota.
  fold (rounded_sizes blocks).
  set (sizes := rounded_sizes blocks).
  destruct (Counter_fold_inv sizes [] I) as [Hd [_ Hnil]].
  pose proof (Counter_add_key sizes []) as Hkeys.
  fold (Counter sizes) in Hd, Hnil, Hkeys.
  destruct (Counter sizes) as [|item items] eqn:Ec.
  { destruct (Hnil eq_refl) as [E _]. unfold sizes, rounded_sizes in E.
    rewrite Eb in E; discriminate. }
  unfold most_common_1.
  destruct (max_by_count_first items item) as [c1 [c2 [Esplit Hc1]]].
  destruct (max_by_count item items) as [v n] eqn:Em.
  rewrite Esplit, map_app in Hkeys; simpl in Hkeys.
  destruct (add_key_first sizes [] _ _ _ (eq_sym Hkeys) (Nat.le_0_l _))
    as [pre [post [Esizes Hpre]]].
  unfold sizes, rounded_sizes in Esizes.
  apply map_eq_app in Esizes.
  destruct Esizes as [before [rest [Eblocks [Ebefore Erest]]]].
  apply map_eq_cons in Erest.
  destruct Erest as [b [after [-> [Ev Eafter]]]].
  exists before, b, after; split; [exact Eblocks|]. split; [symmetry; exact Ev|].
  intros b' Hb'.
  assert (Hin : In (v, n) (item :: items))
    by (rewrite Esplit; apply in_or_app; right; left; reflexivity).
  assert (Hv : (v =? v)%float = true).
  { rewrite <- Ev; apply Hnum; rewrite Eblocks.
    apply in_or_app; right; left; reflexivity. }
  assert (Hu : exists k, In k (map fst c1)
                         /\ (k =? py_round (font_size b') 1)%float = true).
  { apply Hpre.
    - rewrite <- Ebefore; apply in_map_iff; exists b'; split; [reflexivity | exact Hb'].
    - apply Hnum; rewrite Eblocks; apply in_or_app; left; exact Hb'. }
  destruct Hu as [k [Hk Hku]].
  apply in_map_iff in Hk; destruct Hk as [item' [<- Hitem']].
  rewrite <- !count_of_Counter; fold sizes; rewrite Ec.
  assert (Hin' : In item' (item :: items))
    by (rewrite Esplit; apply in_or_app; left; exact Hitem').
  rewrite (entry_count_eq _ item' _ Hd Hin' Hku).
  pose proof (entry_count _ (v, n) Hd Hin Hv) as Hcount.
  simpl fst in Hcount; simpl snd in Hcount; rewrite Hcount.
  exact (Hc1 item' Hitem').
Qed.

(* ================================================================= *)
(** ** Further properties: the result and the command line *)

Lemma accepted_text_length (body_size min_ratio : float) (b : TextBlock) :
  accepted body_size min_ratio b = true ->
  2 <= length (text b) <= 150
  /\ (1 <= block_level b body_size min_ratio <= 4)%Z.
Proof.
  unfold accepted; intros H; apply andb_true_iff in H; destruct H as [Hl Hlevel].
  split.
  - rewrite is_likely_heading_tests in Hl.
    repeat (apply andb_true_iff in Hl; destruct Hl as [Hl _]).
    apply negb_true_iff, orb_false_iff in Hl; destruct Hl as [H2 H150].
    apply Nat.ltb_ge in H2, H150; lia.
  - apply Z.ltb_lt in Hlevel. unfold block_level in *.
    pose proof (heading_level_range (block_ratio b body_size) (is_bold b) min_ratio)
      as Hr; cbv zeta in Hr; lia.
Qed.

(** X10.  In every result of [extract_structure] the headings come in page
    order; each heading has a page between 1 and the page count, a level
    between 1 and 4 and a text of 2 to 150 characters with no whitespace at
    either end; each table has a page between 1 and the page count; and the
    page count is the number of pages of the opened document. *)
Theorem extract_structure_result (fitz : Engine) (pdf_path : option str)
    (pdf_bytes : option bytes) (r : StructureResult) :
  extract_structure fitz pdf_path pdf_bytes = Return r ->
  ascending (map h_page (headings r))
  /\ (forall h, In h (headings r) ->
        (1 <= h_page h <= Z.of_nat (page_count r))%Z
        /\ (1 <= h_level h <= 4)%Z
        /\ 2 <= length (h_text h) <= 150
        /\ trimmed (h_text h))
  /\ (forall t, In t (tables r) ->
        (1 <= t_page t <= Z.of_nat (page_count r))%Z)
  /\ (exists doc, open_document fitz pdf_path pdf_bytes = Return doc
                  /\ page_count r = length doc).
Proof.
  unfold extract_structure.
  destruct (open_document fitz pdf_path pdf_bytes) as [doc| |] eqn:Eopen;
    try discriminate.
  intros H; inversion H; subst r; clear H.
  unfold structure_of; cbn [headings tables page_count].
  set (blocks := extract_text_blocks doc).
  set (body := find_body_font_size blocks).
  rewrite infer_headings_kept.
  split; [|split; [|split]].
  - rewrite map_map.
    change (map (fun b => h_page (heading_of body default_min_ratio b)))
      with (map page).
    apply (ascending_sublist _ (map page blocks)).
    + apply sublist_map, kept_blocks_sublist.
    + apply (ascending_pages page_blocks page page_blocks_page).
  - intros h Hh; apply in_map_iff in Hh; destruct Hh as [b [<- Hb]].
    destruct (kept_blocks_sound _ _ _ _ _ Hb) as [Hin [Hacc _]].
    destruct (accepted_text_length _ _ _ Hacc) as [Hlen Hlevel].
    unfold heading_of, make_heading; cbn [h_page h_level h_text].
    apply extract_text_blocks_lines in Hin.
    destruct Hin as [page_num [line [[pg [block [Hn _]]] Hline]]].
    destruct (line_block_fields _ _ _ Hline) as [Et [_ [_ Ep]]].
    assert (page_num < length doc) by (apply nth_error_Some; congruence).
    repeat split; try lia. 
    + rewrite Et; apply strip_trimmed.
    + rewrite Et; apply strip_trimmed.
  - intros t Ht; apply detect_tables_In in Ht.
    destruct Ht as [page_num [pg [found [table [Hn [_ [_ ->]]]]]]].
    unfold record_of; cbn [t_page].
    assert (page_num < length doc) by (apply nth_error_Some; congruence).
    lia.
  - exists doc; split; reflexivity.
Qed.

(** X11.  A document in which no line of a text block has a non-blank
    span of a size greater than 0 (an empty document, pages of images,
    blank lines) gives no text block, an empty title, the body font size
    12.0 and no headings. *)
Theorem structure_of_no_text (doc : Document) :
  (forall page_num line span,
      doc_line doc page_num line ->
      In span (get (line_spans line) []) ->
      span_counts span = true ->
      (0 <? get (span_size span) 0%float)%float = false) ->
  extract_text_blocks doc = []
  /\ title (structure_of doc) = []
  /\ body_font_size (structure_of doc) = 12.0%float
  /\ headings (structure_of doc) = [].
Proof.
  intros Hnone.
  assert (E : extract_text_blocks doc = []).
  { destruct (extract_text_blocks doc) as [|b bs] eqn:E; [reflexivity|].
    assert (Hb : In b (extract_text_blocks doc)) by (rewrite E; left; reflexivity).
    apply extract_text_blocks_lines in Hb.
    destruct Hb as [page_num [line [Hline Hb]]].
    destruct (line_block_span _ _ _ Hb) as [span [Hin [Hc Hpos]]].
    rewrite (Hnone page_num line span Hline Hin Hc) in Hpos; discriminate. }
  split; [exact E|].
  unfold structure_of; cbn [title body_font_size headings].
  rewrite E; repeat split; vm_compute; reflexivity.
Qed.

(** X12.  [extract_structure] raises the [ValueError] exactly when the
    bytes are absent or empty and the path is absent or empty; it raises
    the engine's error exactly when the engine fails on the source it is
    given; otherwise it returns the structure of the opened document. *)
Theorem extract_structure_outcomes (fitz : Engine) (pdf_path : option str)
    (pdf_bytes : option bytes) :
  ((exists message, extract_structure fitz pdf_path pdf_bytes = ValueError message)
   <-> get pdf_bytes [] = [] /\ get pdf_path [] = [])
  /\ (extract_structure fitz pdf_path pdf_bytes = EngineError
      <-> (get pdf_bytes [] <> [] /\ open_stream fitz (get pdf_bytes []) = None)
          \/ (get pdf_bytes [] = [] /\ get pdf_path [] <> []
              /\ open_path fitz (get pdf_path []) = None))
  /\ (forall r, extract_structure fitz pdf_path pdf_bytes = Return r
                <-> exists doc,
                      r = structure_of doc
                      /\ ((get pdf_bytes [] <> []
                           /\ open_stream fitz (get pdf_bytes []) = Some doc)
                          \/ (get pdf_bytes [] = [] /\ get pdf_path [] <> []
                              /\ open_path fitz (get pdf_path []) = Some doc))).
Proof.
  unfold extract_structure, open_document.
  destruct (get pdf_bytes []) as [|byte rest] eqn:Eb; cbn [truthy].
  - destruct (get pdf_path []) as [|c path] eqn:Ep; cbn [truthy].
    + split; [|split].
      * split; [tauto | intros _; eexists; reflexivity].
      * split; [discriminate | intros [[H _] | [_ [H _]]]; congruence].
      * intros r; split; [discriminate|].
        intros [doc [_ [[H _] | [_ [H _]]]]]; congruence.
    + destruct (open_path fitz (c :: path)) as [doc|] eqn:Eo.
      * split; [|split].
        -- split; [intros [m H]; discriminate | intros [_ H]; discriminate].
        -- split; [discriminate | intros [[H _] | [_ [_ H]]]; congruence].
        -- intros r; split.
           ++ intros H; inversion H; exists doc; split; [reflexivity|].
              right; repeat split; congruence.
           ++ intros [doc' [-> [[H _] | [_ [_ H]]]]]; congruence.
      * split; [|split].
        -- split; [intros [m H]; discriminate | intros [_ H]; discriminate].
        -- split; [intros _; right; repeat split; congruence | reflexivity].
        -- intros r; split; [discriminate|].
           intros [doc' [_ [[H _] | [_ [_ H]]]]]; congruence.
  - destruct (open_stream fitz (byte :: rest)) as [doc|] eqn:Eo.
    + split; [|split].
      * split; [intros [m H]; discriminate | intros [H _]; discriminate].
      * split; [discriminate | intros [[_ H] | [H _]]; congruence].
      * intros r; split.
        -- intros H; inversion H; exists doc; split; [reflexivity|].
           left; split; congruence.
        -- intros [doc' [-> [[_ H] | [H _]]]]; congruence.
    + split; [|split].
      * split; [intros [m H]; discriminate | intros [H _]; discriminate].
      * split; [intros _; left; split; congruence | reflexivity].
      * intros r; split; [discriminate|].
        intros [doc' [_ [[_ H] | [H _]]]]; congruence.
Qed.

(** X13.  On the command line: with no file argument, or with [-], and an
    empty standard input, nothing is opened and the [No input provided]
    error is reported; a file argument other than [-] is used whatever the
    standard input holds; [-] behaves as no argument; an empty file
    argument ends in the uncaught [ValueError]; and whatever is printed is
    the serialisation of a result of [extract_structure]. *)
Theorem main_behaviour (fitz : Engine) :
  (forall prog rest, main fitz (prog :: lit "-" :: rest) [] = NoInputProvided)
  /\ (forall prog, main fitz [prog] [] = NoInputProvided)
  /\ (forall prog arg rest stdin stdin',
         arg <> lit "-" ->
         main fitz (prog :: arg :: rest) stdin
         = main fitz (prog :: arg :: rest) stdin'
         /\ main fitz (prog :: arg :: rest) stdin
            = print_result (extract_structure fitz (Some arg) None))
  /\ (forall prog rest stdin,
         main fitz (prog :: lit "-" :: rest) stdin = main fitz [prog] stdin)
  /\ (forall prog rest stdin, main fitz (prog :: [] :: rest) stdin = Uncaught)
  /\ (forall argv stdin out,
         main fitz argv stdin = Printed out ->
         exists pdf_path pdf_bytes r,
           extract_structure fitz pdf_path pdf_bytes = Return r
           /\ out = json_dumps r).
Proof.
  assert (Hprint : forall res out,
             print_result res = Printed out ->
             exists r, res = Return r /\ out = json_dumps r).
  { intros [r| |] out H; simpl in H; try discriminate.
    inversion H; exists r; split; reflexivity. }
  repeat split; try reflexivity.
  - unfold main. destruct (str_eqb arg (lit "-")) eqn:E; [|reflexivity].
    apply str_eqb_eq in E; contradiction.
  - unfold main. destruct (str_eqb arg (lit "-")) eqn:E; [|reflexivity].
    apply str_eqb_eq in E; contradiction.
  - intros argv stdin out H. unfold main in H.
    assert (Hstdin : (if negb (truthy stdin) then NoInputProvided
                      else print_result (extract_structure fitz None (Some stdin)))
                     = Printed out ->
                     exists pdf_path pdf_bytes r,
                       extract_structure fitz pdf_path pdf_bytes = Return r
                       /\ out = json_dumps r).
    { destruct (truthy stdin); simpl; [|discriminate].
      intros H'; destruct (Hprint _ _ H') as [r [E ->]].
      exists None, (Some stdin), r; split; [exact E | reflexivity]. }
    destruct argv as [|prog [|arg rest]]; try (apply Hstdin; exact H).
    destruct (str_eqb arg (lit "-")); simpl in H; [apply Hstdin; exact H|].
    destruct (Hprint _ _ H) as [r [E ->]].
    exists (Some arg), None, r; split; [exact E | reflexivity].
Qed.

End ExtractStructure.

(* ================================================================= *)
(** ** The statements at concrete inputs, with the ASCII tables *)

Lemma ascii_tables_extend_ascii :
  tables_extend_ascii ascii_isalpha ascii_isspace ascii_lower.
Proof. split; intros; [split|]; reflexivity. Qed.

(** The scenario blocks, with texts that pass the filter, give the three
    headings of levels 1, 2 and 4. *)
Lemma infer_headings_levels_witness :
  infer_headings ascii_isalpha ascii_lower
    [block_A; block_B; block_C; block_D] 10.0 default_min_ratio
  = [make_heading 1 block_A; make_heading 2 block_B; make_heading 4 block_C].
Proof.
  apply (proj2 (proj2 (proj2 (infer_headings_levels ascii_isalpha ascii_lower)))
           block_A block_B block_C block_D);
    try reflexivity.
  repeat constructor; simpl; intuition discriminate.
Defined.

(** Among sizes that round to 10.0, 12.0, 10.0, 10.0 the body size is the
    rounded size of a block and nothing occurs more often. *)
Lemma find_body_font_size_mode_witness :
  find_body_font_size example_sized_blocks = 10.0%float
  /\ (exists b, In b example_sized_blocks
                /\ find_body_font_size example_sized_blocks
                   = py_round (font_size b) 1)
  /\ (forall u,
         occurrences u (rounded_sizes example_sized_blocks)
         <= occurrences (find_body_font_size example_sized_blocks)
                        (rounded_sizes example_sized_blocks)).
Proof.
  split; [vm_compute; reflexivity|].
  destruct (proj2 find_body_font_size_mode example_sized_blocks) as [H1 H2].
  - discriminate.
  - split; [exact H1 | apply H2].
    intros b [<- | [<- | [<- | [<- | []]]]]; vm_compute; reflexivity.
Defined.

(** The example document's title is its first page-1 heading of level at
    most 2. *)
Lemma extract_structure_title_witness :
  title (structure_of ascii_isalpha ascii_isspace ascii_lower example_doc)
  = lit "Document Title"
  /\ ((exists before h after,
          headings (structure_of ascii_isalpha ascii_isspace ascii_lower example_doc)
          = before ++ h :: after
          /\ (h_page h = 1 /\ h_level h <= 2)%Z
          /\ (forall h', In h' before -> ~ (h_page h' = 1 /\ h_level h' <= 2)%Z)
          /\ title (structure_of ascii_isalpha ascii_isspace ascii_lower example_doc)
             = h_text h)
      \/ ((forall h,
              In h (headings (structure_of ascii_isalpha ascii_isspace ascii_lower
                                example_doc)) ->
              ~ (h_page h = 1 /\ h_level h <= 2)%Z)
          /\ title (structure_of ascii_isalpha ascii_isspace ascii_lower example_doc)
             = [])).
Proof.
  split; [vm_compute; reflexivity|].
  apply (extract_structure_title ascii_isalpha ascii_isspace ascii_lower
           example_fitz None (Some [Byte.x25])).
  reflexivity.
Defined.

(** With the ASCII tables, "1234-5678" is rejected and "Introduction" is
    accepted. *)
Lemma is_likely_heading_filter_witness :
  is_likely_heading ascii_isalpha ascii_lower (lit "1234-5678") = false
  /\ is_likely_heading ascii_isalpha ascii_lower (lit "Introduction") = true.
Proof.
  apply (proj2 (proj2 (is_likely_heading_filter
                         ascii_isalpha ascii_isspace ascii_lower))).
  exact ascii_tables_extend_ascii.
Defined.

(** C7, as stated, fails: the document's only line yields a block of size
    20 while one of the line's spans, blank after trimming, has size 30. *)
Lemma extract_text_blocks_blank_span_larger :
  extract_text_blocks ascii_isspace ascii_lower example_line_doc
  = [example_line_block]
  /\ doc_line example_line_doc 0 example_line
  /\ In example_blank_span (get (line_spans example_line) [])
  /\ (font_size example_line_block
      <? get (span_size example_blank_span) 0)%float = true.
Proof.
  split; [vm_compute; reflexivity|].
  split; [|split; [simpl; auto | vm_compute; reflexivity]].
  exists (List.hd {| get_text := {| td_blocks := None |}; find_tables := None |}
                  example_line_doc),
         {| block_type := Some 0%Z; block_lines := Some [example_line] |}.
  repeat split; simpl; auto.
Defined.

(** In the example document the block takes size, font and boldness from
    the regular span of size 20: it is not bold although the line has a
    bold span. *)
Lemma extract_text_blocks_largest_span_witness :
  is_bold example_line_block = false
  /\ exists page_num line before span after,
       doc_line example_line_doc page_num line
       /\ line_block ascii_isspace ascii_lower page_num line
          = Some example_line_block
       /\ get (line_spans line) [] = before ++ span :: after
       /\ span_counts ascii_isspace span = true
       /\ font_size example_line_block = get (span_size span) 0%float
       /\ font_name example_line_block = get (span_font span) []
       /\ is_bold example_line_block
          = (contains (ascii_lower (font_name example_line_block)) (lit "bold")
             || contains (ascii_lower (font_name example_line_block)) (lit "black")
             || negb (Z.land (get (span_flags span) 0%Z) 16 =? 0)%Z)
       /\ (forall s, In s before -> span_counts ascii_isspace s = true ->
                     (font_size example_line_block
                      <=? get (span_size s) 0%float)%float = false)
       /\ (forall s, In s after -> span_counts ascii_isspace s = true ->
                     (font_size example_line_block
                      <? get (span_size s) 0%float)%float = false).
Proof.
  split; [reflexivity|].
  apply (extract_text_blocks_largest_span ascii_isspace ascii_lower
           example_line_doc example_line_block).
  vm_compute; left; reflexivity.
Defined.

(** Two runs on the example document: the engines differ, and so do the
    layouts of the two sets once they hold the two heading texts, yet the
    results and the command-line outputs are the same. *)
Lemma extract_structure_deterministic_witness :
  set_iter (seeded_set 0)
    (set_add (seeded_set 0) (lit "Section")
       (set_add (seeded_set 0) (lit "Document Title") (set_new (seeded_set 0))))
  <> set_iter (seeded_set 1)
       (set_add (seeded_set 1) (lit "Section")
          (set_add (seeded_set 1) (lit "Document Title")
             (set_new (seeded_set 1))))
  /\ extract_structure_in ascii_isalpha ascii_isspace ascii_lower
       {| run_engine := example_fitz; run_set := seeded_set 0 |}
       None (Some [Byte.x25])
     = extract_structure_in ascii_isalpha ascii_isspace ascii_lower
         {| run_engine := example_fitz_strict; run_set := seeded_set 1 |}
         None (Some [Byte.x25])
  /\ (forall argv stdin,
         cli_source argv stdin = (None, Some [Byte.x25]) ->
         main_in ascii_isalpha ascii_isspace ascii_lower example_dumps
           {| run_engine := example_fitz; run_set := seeded_set 0 |} argv stdin
         = main_in ascii_isalpha ascii_isspace ascii_lower example_dumps
             {| run_engine := example_fitz_strict; run_set := seeded_set 1 |}
             argv stdin).
Proof.
  split; [vm_compute; discriminate|].
  apply (extract_structure_deterministic ascii_isalpha ascii_isspace ascii_lower
           example_dumps
           {| run_engine := example_fitz; run_set := seeded_set 0 |}
           {| run_engine := example_fitz_strict; run_set := seeded_set 1 |}
           None (Some [Byte.x25])).
  - apply seeded_set_lawful.
  - apply seeded_set_lawful.
  - reflexivity.
Defined.

(* ================================================================= *)
(** ** The further properties at concrete inputs *)

(** The block of the example line is well formed. *)
Lemma extract_text_blocks_wellformed_witness :
  text example_line_block <> []
  /\ trimmed ascii_isspace (text example_line_block)
  /\ (0 <? font_size example_line_block)%float = true
  /\ (font_size example_line_block =? font_size example_line_block)%float = true
  /\ (1 <= page example_line_block <= Z.of_nat (length example_line_doc))%Z.
Proof.
  apply (extract_text_blocks_wellformed ascii_isspace ascii_lower
           example_line_doc example_line_block).
  vm_compute; left; reflexivity.
Defined.

(** The text of the example line's block is "Bold Title": the blank span
    leaves no trace. *)
Lemma extract_text_blocks_text_witness :
  join_space (counted_texts ascii_isspace (get (line_spans example_line) []))
  = lit "Bold Title"
  /\ exists page_num line,
       doc_line example_line_doc page_num line
       /\ line_block ascii_isspace ascii_lower page_num line
          = Some example_line_block
       /\ text example_line_block
          = join_space (counted_texts ascii_isspace (get (line_spans line) [])).
Proof.
  split; [vm_compute; reflexivity|].
  apply (extract_text_blocks_text ascii_isspace ascii_lower
           example_line_doc example_line_block).
  - reflexivity.
  - vm_compute; left; reflexivity.
Defined.

(** The bold 13.0pt block of the scenario is a heading. *)
Lemma infer_headings_complete_witness :
  In (text block_B)
     (map h_text (infer_headings ascii_isalpha ascii_lower
                    [block_A; block_B; block_C; block_D] 10.0 default_min_ratio)).
Proof.
  apply (infer_headings_complete ascii_isalpha ascii_lower
           [block_A; block_B; block_C; block_D] 10.0 default_min_ratio block_B).
  - simpl; auto.
  - vm_compute; reflexivity.
  - right; reflexivity.
Defined.

(** With 12.0 and 10.0 tied, the size met first is returned. *)
Lemma find_body_font_size_first_witness :
  find_body_font_size example_tied_blocks = 12.0%float
  /\ exists before b after,
       example_tied_blocks = before ++ b :: after
       /\ find_body_font_size example_tied_blocks = py_round (font_size b) 1
       /\ forall b', In b' before ->
                     occurrences (py_round (font_size b') 1)
                                 (rounded_sizes example_tied_blocks)
                     < occurrences (find_body_font_size example_tied_blocks)
                                   (rounded_sizes example_tied_blocks).
Proof.
  split; [vm_compute; reflexivity|].
  apply (find_body_font_size_first example_tied_blocks).
  - discriminate.
  - intros b [<- | [<- | [<- | [<- | []]]]]; vm_compute; reflexivity.
Defined.

(** The result for the example document. *)
Lemma extract_structure_result_witness :
  ascending (map h_page (headings (structure_of ascii_isalpha ascii_isspace
                                     ascii_lower example_doc)))
  /\ (forall h,
         In h (headings (structure_of ascii_isalpha ascii_isspace ascii_lower
                           example_doc)) ->
         (1 <= h_page h
          <= Z.of_nat (page_count (structure_of ascii_isalpha ascii_isspace
                                     ascii_lower example_doc)))%Z
         /\ (1 <= h_level h <= 4)%Z
         /\ 2 <= length (h_text h) <= 150
         /\ trimmed ascii_isspace (h_text h))
  /\ (forall t,
         In t (tables (structure_of ascii_isalpha ascii_isspace ascii_lower
                         example_doc)) ->
         (1 <= t_page t
          <= Z.of_nat (page_count (structure_of ascii_isalpha ascii_isspace
                                     ascii_lower example_doc)))%Z)
  /\ (exists doc,
         open_document example_fitz None (Some [Byte.x25]) = Return doc
         /\ page_count (structure_of ascii_isalpha ascii_isspace ascii_lower
                          example_doc)
            = length doc).
Proof.
  apply (extract_structure_result ascii_isalpha ascii_isspace ascii_lower
           example_fitz None (Some [Byte.x25])).
  reflexivity.
Defined.

(** A page that holds only an image has no text block, no title and no
    headings. *)
Lemma structure_of_no_text_witness :
  extract_text_blocks ascii_isspace ascii_lower example_image_doc = []
  /\ title (structure_of ascii_isalpha ascii_isspace ascii_lower
               example_image_doc)
     = []
  /\ body_font_size (structure_of ascii_isalpha ascii_isspace ascii_lower
                       example_image_doc)
     = 12.0%float
  /\ headings (structure_of ascii_isalpha ascii_isspace ascii_lower
                 example_image_doc)
     = [].
Proof.
  apply (structure_of_no_text ascii_isalpha ascii_isspace ascii_lower
           example_image_doc).
  intros page_num line span [pg [block [Hn [Hblock [Et _]]]]].
  destruct page_num as [|[|n]]; simpl in Hn; try discriminate.
  inversion Hn; subst pg; simpl in Hblock.
  destruct Hblock as [<- | []]; discriminate.
Defined.
